(** * A shallow embedding of the sprite renderer core

    The development follows the TypeScript sources:
    - [graphics/gl/Vector.ts] and [graphics/gl/Matrix.ts]: 4-vectors and
      4x4 matrices backed by a JavaScript array;
    - [graphics/gl/GLWrapper.ts]: the renderer (projection upload, [draw]);
    - [component/ComponentManager.ts], [component/IComponent.ts] and
      [component/graphics/Sprite.ts]: the registry and the drawable entity.

    JavaScript objects live in a heap of mutable objects addressed by
    references, methods are computations in a state-and-exception monad over
    that heap, and JavaScript numbers are an abstract type with the operators
    the sources use, so that the general theorems hold for every
    interpretation of the arithmetic (IEEE doubles included).  Two exact
    interpretations (rationals, reals) are given at the end of the
    definitions for the statements that speak about exact values. *)

From Stdlib Require Import ZArith QArith Reals Psatz.
From stdpp Require Import base option list gmap strings.

Set Default Proof Using "Type".

(** ** JavaScript numbers *)

(** The values held by a [number]-typed position at run time.  An array read
    out of range yields [undefined], which the arithmetic operators coerce;
    hence [undefined] is a member of the type and the operators are total. *)
Class JSNum (V : Type) := {
  undefined : V;
  num : Z → V;              (* an integer literal *)
  js_add : V → V → V;       (* binary [+] *)
  js_mul : V → V → V;       (* binary [*] *)
  js_div : V → V → V;       (* binary [/] *)
  js_neg : V → V;           (* unary [-] *)
  fround : V → V;           (* the conversion done when storing in a Float32Array *)
}.

(** [Math.cos] and [Math.sin]. *)
Class JSMath (V : Type) `{JSNum V} := {
  Math_cos : V → V;
  Math_sin : V → V;
}.

Declare Scope js_scope.
Delimit Scope js_scope with js.
Notation "x + y" := (js_add x y) : js_scope.
Notation "x * y" := (js_mul x y) : js_scope.
Notation "x / y" := (js_div x y) : js_scope.
Notation "- x" := (js_neg x) : js_scope.

(** References into the heap, and class names ([instanceof] compares
    constructors, which are identified here by their names). *)
Definition loc := nat.
Definition cls := string.

Section Program.
Context {V : Type} `{JSMath V}.

(** ** JavaScript arrays of numbers

    [a[k]] is [undefined] out of range; [a[k] = x] overwrites in range and
    extends the array (leaving holes, which read as [undefined]) otherwise. *)
Definition arr_get (a : list V) (k : nat) : V := default undefined (a !! k).

Definition arr_set (a : list V) (k : nat) (x : V) : list V :=
  if decide (k < length a) then <[k := x]> a
  else a ++ replicate (k - length a) undefined ++ [x].

Notation "a .[ k ]" := (arr_get a k) (at level 1, format "a .[ k ]").

(** ** Objects *)

(** The tuple types of Sprite.ts are arrays at run time. *)
Definition Position : Type := list V.
Definition Rotation : Type := list V.
Definition Scale : Type := list V.
Definition Color : Type := list V.

(** The fields of a [Sprite].  The four tuples are treated as values. *)
Record Sprite := mkSprite {
  enabled : bool;
  pos : Position;
  rot : Rotation;
  scl : Scale;
  col : Color;
}.

(** The calls a [GLWrapper] issues on its WebGL context that concern uniforms
    and drawing; the context is represented by the log of these calls. *)
Inductive uniform := uniScl | uniRot | uniTrs | uniProj | uniCol.

Inductive gl_call :=
  | uniformMatrix4fv (location : uniform) (transpose : bool) (data : list V)
  | uniform4fv (location : uniform) (data : list V)
  | drawElements (count : nat)
  | gl_clear
  | gl_flush.

(** A heap object.  [Vector] and [Matrix] own their backing array ([v], [m]),
    which never escapes, so the array is stored in the object itself.  A
    component carries its prototype chain (its own class first, then the
    classes it extends); [OOther] stands for an instance of a component class
    other than [Sprite], of which only the prototype chain matters here. *)
Inductive object :=
  | OVector (v : list V)
  | OMatrix (m : list V)
  | OSprite (proto : list cls) (s : Sprite)
  | OOther (proto : list cls)
  | OComponentManager (components : list loc)
  | OGLWrapper (gl : list gl_call).

Abbreviation heap := (gmap loc object).

(** ** The monad of methods: state over the heap, with exceptions *)

Inductive error :=
  | Error (message : string) (raw : list V)
      (* [new Error(message + raw)]: the text, then the rendering of [raw] *)
  | TypeError.
      (* a field access on an object of another class; excluded by typing *)

Inductive outcome (A : Type) :=
  | Ret (a : A) (h : heap)
  | Throw (e : error) (h : heap).
Arguments Ret {A} a h.
Arguments Throw {A} e h.

Definition M (A : Type) : Type := heap → outcome A.

#[export] Instance M_ret : MRet M := λ A a h, Ret a h.
#[export] Instance M_bind : MBind M := λ A B f c h,
  match c h with
  | Ret a h' => f a h'
  | Throw e h' => Throw e h'
  end.

Definition throw {A} (e : error) : M A := λ h, Throw e h.

(** [new]: the object is placed at a reference not in use. *)
Definition alloc (o : object) : M loc := λ h,
  let l := fresh (dom h) in Ret l (<[l := o]> h).

Definition load (l : loc) : M object := λ h,
  match h !! l with
  | Some o => Ret o h
  | None => Throw TypeError h
  end.

Definition store (l : loc) (o : object) : M unit := λ h, Ret () (<[l := o]> h).

(** [for (const x of xs) body] and a loop threading a local variable. *)
Fixpoint for_of {A} (xs : list A) (body : A → M unit) : M unit :=
  match xs with
  | [] => mret ()
  | x :: xs => body x ≫= λ _, for_of xs body
  end.

Fixpoint for_acc {A B} (xs : list A) (acc : B) (body : B → A → M B) : M B :=
  match xs with
  | [] => mret acc
  | x :: xs => acc' ← body acc x; for_acc xs acc' body
  end.

(** ** Vector.ts *)

Definition get_v (this : loc) : M (list V) :=
  o ← load this; match o with OVector v => mret v | _ => throw TypeError end.

Definition Vector_new (raw : option (list V)) : M loc :=
  match raw with
  | None => alloc (OVector [num 0; num 0; num 0; num 0])
  | Some raw =>
      if decide (4 ≤ length raw) then
        alloc (OVector [raw.[0]; raw.[1]; raw.[2]; raw.[3]])
      else
        throw (Error "Vector(): the length of `raw` parameter must be no fewer than 4: " raw)
  end.

Definition Vector_clone (this : loc) : M loc :=
  v ← get_v this; Vector_new (Some v).

Definition Float32Array (a : list V) : list V := fround <$> a.

Definition Vector_get (this : loc) : M (list V) :=
  v ← get_v this; mret (Float32Array v).

Definition Vector_at (this : loc) (i : nat) : M V :=
  v ← get_v this; mret v.[i].

Definition Vector_x (this : loc) : M V := v ← get_v this; mret v.[0].
Definition Vector_y (this : loc) : M V := v ← get_v this; mret v.[1].
Definition Vector_z (this : loc) : M V := v ← get_v this; mret v.[2].
Definition Vector_w (this : loc) : M V := v ← get_v this; mret v.[3].

Definition Vector_setAt (this : loc) (i : nat) (val : V) : M unit :=
  v ← get_v this; store this (OVector (arr_set v i val)).

Definition Vector_mul (this u : loc) : M loc :=
  x1 ← Vector_x this; x2 ← Vector_x u;
  y1 ← Vector_y this; y2 ← Vector_y u;
  z1 ← Vector_z this; z2 ← Vector_z u;
  w1 ← Vector_w this; w2 ← Vector_w u;
  Vector_new (Some [x1 * x2; y1 * y2; z1 * z2; w1 * w2]%js).

Definition Vector_dot (this u : loc) : M V :=
  x1 ← Vector_x this; x2 ← Vector_x u;
  y1 ← Vector_y this; y2 ← Vector_y u;
  z1 ← Vector_z this; z2 ← Vector_z u;
  w1 ← Vector_w this; w2 ← Vector_w u;
  mret (x1 * x2 + y1 * y2 + z1 * z2 + w1 * w2)%js.

(** ** Matrix.ts *)

Definition get_m (this : loc) : M (list V) :=
  o ← load this; match o with OMatrix m => mret m | _ => throw TypeError end.

Definition Matrix_new (raw : option (list V)) : M loc :=
  match raw with
  | None =>
      alloc (OMatrix [
        num 0; num 0; num 0; num 0;
        num 0; num 0; num 0; num 0;
        num 0; num 0; num 0; num 0;
        num 0; num 0; num 0; num 0])
  | Some raw =>
      if decide (16 ≤ length raw) then
        alloc (OMatrix [
          raw.[0]; raw.[1]; raw.[2]; raw.[3];
          raw.[4]; raw.[5]; raw.[6]; raw.[7];
          raw.[8]; raw.[9]; raw.[10]; raw.[11];
          raw.[12]; raw.[13]; raw.[14]; raw.[15]])
      else
        throw (Error "Matrix(): the length of `raw` parameter must be no fewer than 16: " raw)
  end.

Definition Matrix_clone (this : loc) : M loc :=
  m ← get_m this; Matrix_new (Some m).

Definition Matrix_get (this : loc) : M (list V) :=
  m ← get_m this; mret (Float32Array m).

Definition Matrix_at (this : loc) (i j : nat) : M V :=
  m ← get_m this; mret m.[4 * j + i].

Definition Matrix_setAt (this : loc) (i j : nat) (val : V) : M unit :=
  m ← get_m this; store this (OMatrix (arr_set m (4 * j + i) val)).

Definition Matrix_mul (this m2 : loc) : M loc :=
  result ← Matrix_new None;
  for_of (seq 0 4) (λ i,
    for_of (seq 0 4) (λ j,
      val ← for_acc (seq 0 4) (num 0) (λ val k,
        a ← Matrix_at this i k;
        b ← Matrix_at m2 k j;
        mret (val + a * b)%js);
      Matrix_setAt result i j val));;
  mret result.

(** The array literals handed to [new Matrix] by the static constructors. *)
Definition identity_raw : list V := [
  num 1; num 0; num 0; num 0;
  num 0; num 1; num 0; num 0;
  num 0; num 0; num 1; num 0;
  num 0; num 0; num 0; num 1].

Definition scaler_raw (x y z : V) : list V := [
  x; num 0; num 0; num 0;
  num 0; y; num 0; num 0;
  num 0; num 0; z; num 0;
  num 0; num 0; num 0; num 1].

Definition rotatorX_raw (r : V) : list V := [
  num 1; num 0; num 0; num 0;
  num 0; Math_cos r; (- Math_sin r)%js; num 0;
  num 0; Math_sin r; Math_cos r; num 0;
  num 0; num 0; num 0; num 1].

Definition rotatorY_raw (r : V) : list V := [
  Math_cos r; num 0; Math_sin r; num 0;
  num 0; num 1; num 0; num 0;
  (- Math_sin r)%js; num 0; Math_cos r; num 0;
  num 0; num 0; num 0; num 1].

Definition rotatorZ_raw (r : V) : list V := [
  Math_cos r; (- Math_sin r)%js; num 0; num 0;
  Math_sin r; Math_cos r; num 0; num 0;
  num 0; num 0; num 1; num 0;
  num 0; num 0; num 0; num 1].

Definition translator_raw (x y z : V) : list V := [
  num 1; num 0; num 0; num 0;
  num 0; num 1; num 0; num 0;
  num 0; num 0; num 1; num 0;
  x; y; z; num 1].

Definition Matrix_identity : M loc := Matrix_new (Some identity_raw).
Definition Matrix_scaler (x y z : V) : M loc := Matrix_new (Some (scaler_raw x y z)).
Definition Matrix_rotatorX (r : V) : M loc := Matrix_new (Some (rotatorX_raw r)).
Definition Matrix_rotatorY (r : V) : M loc := Matrix_new (Some (rotatorY_raw r)).
Definition Matrix_rotatorZ (r : V) : M loc := Matrix_new (Some (rotatorZ_raw r)).
Definition Matrix_translator (x y z : V) : M loc := Matrix_new (Some (translator_raw x y z)).

(** ** GLWrapper.ts *)

Definition VIEWPORT_WIDTH : V := num 1280.
Definition VIEWPORT_HEIGHT : V := num 960.
Definition VIEWPORT_DEPTH : V := num 100.

Definition matProj : list V := Float32Array [
  (num 2 / VIEWPORT_WIDTH)%js; num 0; num 0; num 0;
  num 0; (num 2 / VIEWPORT_HEIGHT)%js; num 0; num 0;
  num 0; num 0; (- num 2 / VIEWPORT_DEPTH)%js; num 0;
  num 0; num 0; num 0; num 1].

Definition get_gl (this : loc) : M (list gl_call) :=
  o ← load this; match o with OGLWrapper gl => mret gl | _ => throw TypeError end.

(** [this.gl.f(...)]: the call is appended to the log of the context. *)
Definition gl_issue (this : loc) (c : gl_call) : M unit :=
  gl ← get_gl this; store this (OGLWrapper (gl ++ [c])).

(** The constructor, on the path where the canvas, the context, the shaders,
    the program, the uniform locations and the buffers are all obtained (each
    failure throws before anything below is issued).  Shader, buffer,
    attribute and render-state calls are not recorded in the log. *)
Definition GLWrapper_new : M loc :=
  alloc (OGLWrapper [
    uniformMatrix4fv uniProj false matProj;
    uniform4fv uniCol (Float32Array [num 1; num 1; num 1; num 1])]).

Definition GLWrapper_clear (this : loc) : M unit := gl_issue this gl_clear.
Definition GLWrapper_flush (this : loc) : M unit := gl_issue this gl_flush.

Definition GLWrapper_draw (this matScl matRot matTrs vecCol : loc) : M unit :=
  scl ← Matrix_get matScl; gl_issue this (uniformMatrix4fv uniScl false scl);;
  rot ← Matrix_get matRot; gl_issue this (uniformMatrix4fv uniRot false rot);;
  trs ← Matrix_get matTrs; gl_issue this (uniformMatrix4fv uniTrs false trs);;
  col ← Vector_get vecCol; gl_issue this (uniform4fv uniCol col);;
  gl_issue this (drawElements 6).

(** ** IComponent.ts and Sprite.ts *)

Definition get_sprite (this : loc) : M (list cls * Sprite) :=
  o ← load this;
  match o with OSprite proto s => mret (proto, s) | _ => throw TypeError end.

(** [this.f] and [this.f = x] for a field of a sprite. *)
Definition Sprite_field {A} (f : Sprite → A) (this : loc) : M A :=
  '(_, s) ← get_sprite this; mret (f s).

Definition Sprite_update (f : Sprite → Sprite) (this : loc) : M unit :=
  '(proto, s) ← get_sprite this; store this (OSprite proto (f s)).

Definition set_enabled (b : bool) (s : Sprite) : Sprite :=
  {| enabled := b; pos := pos s; rot := rot s; scl := scl s; col := col s |}.
Definition set_pos (p : Position) (s : Sprite) : Sprite :=
  {| enabled := enabled s; pos := p; rot := rot s; scl := scl s; col := col s |}.
Definition set_rot (r : Rotation) (s : Sprite) : Sprite :=
  {| enabled := enabled s; pos := pos s; rot := r; scl := scl s; col := col s |}.
Definition set_scl (k : Scale) (s : Sprite) : Sprite :=
  {| enabled := enabled s; pos := pos s; rot := rot s; scl := k; col := col s |}.
Definition set_col (c : Color) (s : Sprite) : Sprite :=
  {| enabled := enabled s; pos := pos s; rot := rot s; scl := scl s; col := c |}.

Definition Sprite_isEnabled : loc → M bool := Sprite_field enabled.
Definition Sprite_enable : loc → M unit := Sprite_update (set_enabled true).
Definition Sprite_disable : loc → M unit := Sprite_update (set_enabled false).

(** [new Sprite(pos, rot, scl, col)]; an omitted argument is [None]. *)
Definition Sprite_new (pos : option Position) (rot : option Rotation)
    (scl : option Scale) (col : option Color) : M loc :=
  alloc (OSprite ["Sprite"] {|
    enabled := true;
    pos := match pos with None => [num 0; num 0; num 0] | Some pos => pos end;
    rot := match rot with None => [num 0; num 0; num 0] | Some rot => rot end;
    scl := match scl with None => [num 1; num 1] | Some scl => scl end;
    col := match col with None => [num 0; num 0; num 0; num 0] | Some col => col end;
  |}).

Definition Sprite_getPosition : loc → M Position := Sprite_field pos.
Definition Sprite_getRotation : loc → M Rotation := Sprite_field rot.
Definition Sprite_getScale : loc → M Scale := Sprite_field scl.
Definition Sprite_getColor : loc → M Color := Sprite_field col.

Definition Sprite_setPosition (this : loc) (pos : Position) : M unit :=
  Sprite_update (set_pos pos) this.
Definition Sprite_setRotation (this : loc) (rot : Rotation) : M unit :=
  Sprite_update (set_rot rot) this.
Definition Sprite_setScale (this : loc) (scl : Scale) : M unit :=
  Sprite_update (set_scl scl) this.
Definition Sprite_setColor (this : loc) (col : Color) : M unit :=
  Sprite_update (set_col col) this.

(** [draw(gl)].  [gl_draw] is the method [gl.draw] of the renderer passed in;
    the frame driver passes a [GLWrapper], for which it is [GLWrapper_draw gl].
    The arguments are evaluated from left to right, receivers before
    arguments. *)
Definition Sprite_draw (gl_draw : loc → loc → loc → loc → M unit) (this : loc) : M unit :=
  scl0 ← Sprite_field (λ s, (scl s).[0]) this;
  scl1 ← Sprite_field (λ s, (scl s).[1]) this;
  matScl ← Matrix_scaler scl0 scl1 (num 1);
  rot0 ← Sprite_field (λ s, (rot s).[0]) this;
  rx ← Matrix_rotatorX rot0;
  rot1 ← Sprite_field (λ s, (rot s).[1]) this;
  ry ← Matrix_rotatorY rot1;
  rot2 ← Sprite_field (λ s, (rot s).[2]) this;
  rz ← Matrix_rotatorZ rot2;
  ryz ← Matrix_mul ry rz;
  matRot ← Matrix_mul rx ryz;
  pos0 ← Sprite_field (λ s, (pos s).[0]) this;
  pos1 ← Sprite_field (λ s, (pos s).[1]) this;
  pos2 ← Sprite_field (λ s, (pos s).[2]) this;
  matTrs ← Matrix_translator pos0 pos1 pos2;
  col0 ← Sprite_field (λ s, (col s).[0]) this;
  col1 ← Sprite_field (λ s, (col s).[1]) this;
  col2 ← Sprite_field (λ s, (col s).[2]) this;
  col3 ← Sprite_field (λ s, (col s).[3]) this;
  vecCol ← Vector_new (Some [col0; col1; col2; col3]);
  gl_draw matScl matRot matTrs vecCol.

(** ** ComponentManager.ts *)

Definition get_components (this : loc) : M (list loc) :=
  o ← load this;
  match o with OComponentManager components => mret components | _ => throw TypeError end.

Definition ComponentManager_new : M loc := alloc (OComponentManager []).

Definition ComponentManager_add (this component : loc) : M unit :=
  components ← get_components this;
  store this (OComponentManager (components ++ [component])).

(** The prototype chain of an object: its class, then the classes that class
    extends. *)
Definition proto_of (o : object) : list cls :=
  match o with
  | OVector _ => ["Vector"]
  | OMatrix _ => ["Matrix"]
  | OSprite proto _ => proto
  | OOther proto => proto
  | OComponentManager _ => ["ComponentManager"]
  | OGLWrapper _ => ["GLWrapper"]
  end.

(** [n instanceof type]: [type] occurs on the prototype chain of [n]. *)
Definition instanceof (n : loc) (type : cls) : M bool :=
  o ← load n; mret (bool_decide (type ∈ proto_of o)).

Definition ComponentManager_get (this : loc) (type : cls) : M (list loc) :=
  components ← get_components this;
  for_acc components [] (λ (res : list loc) (n : loc),
    b ← instanceof n type;
    mret (if (b : bool) then res ++ [n] else res)).

End Program.

Arguments Ret {V A} a h.
Arguments Throw {V A} e h.
Notation "a .[ k ]" := (arr_get a k) (at level 1, format "a .[ k ]").

(** ** Notions used by the statements *)

Section Specification.
Context {V : Type} `{JSMath V}.

(** The entry in row [i], column [j] of a matrix whose backing array is [m]:
    the value [at(i, j)] returns. *)
Definition cells_at (m : list V) (i j : nat) : V := m.[4 * j + i].

(** The sum of [f 0 .. f 3], accumulated from [0] in increasing order. *)
Definition sum4 (f : nat → V) : V := (num 0 + f 0 + f 1 + f 2 + f 3)%js.

(** The entry in row [i], column [j] of the matrix product. *)
Definition product_entry (A B : list V) (i j : nat) : V :=
  sum4 (λ k, cells_at A i k * cells_at B k j)%js.

(** The backing array of the product: cell [n] holds row [n mod 4], column
    [n / 4]. *)
Definition mul_cells (A B : list V) : list V :=
  (λ n, product_entry A B (n mod 4) (n / 4)) <$> seq 0 16.

(** The standard right-handed rotation matrices about the three axes, as
    the specification words them: the entry in row [i], column [j]. *)
Definition standard_rotationX (r : V) (i j : nat) : V :=
  match i, j with
  | 0, 0 => num 1
  | 1, 1 => Math_cos r
  | 1, 2 => (- Math_sin r)%js
  | 2, 1 => Math_sin r
  | 2, 2 => Math_cos r
  | 3, 3 => num 1
  | _, _ => num 0
  end.

Definition standard_rotationY (r : V) (i j : nat) : V :=
  match i, j with
  | 0, 0 => Math_cos r
  | 0, 2 => Math_sin r
  | 1, 1 => num 1
  | 2, 0 => (- Math_sin r)%js
  | 2, 2 => Math_cos r
  | 3, 3 => num 1
  | _, _ => num 0
  end.

Definition standard_rotationZ (r : V) (i j : nat) : V :=
  match i, j with
  | 0, 0 => Math_cos r
  | 0, 1 => (- Math_sin r)%js
  | 1, 0 => Math_sin r
  | 1, 1 => Math_cos r
  | 2, 2 => num 1
  | 3, 3 => num 1
  | _, _ => num 0
  end.

(** [m * v] as the vertex shader computes it for a [mat4] uploaded without
    transposition (column-major data) and a [vec4]. *)
Definition mat4_vec4 (m v : list V) : list V :=
  (λ i, sum4 (λ j, cells_at m i j * v.[j])%js) <$> seq 0 4.

(** The run-time type of the object at [n] is [type] or a class extending it. *)
Definition is_instance (h : gmap loc (object (V:=V))) (type : cls) (n : loc) : bool :=
  match h !! n with
  | Some o => bool_decide (type ∈ proto_of o)
  | None => false
  end.

(** Two heaps that differ at most in the [enabled] fields of their sprites. *)
Definition forget_enabled (o : object (V:=V)) : object :=
  match o with
  | OSprite proto s => OSprite proto (set_enabled true s)
  | _ => o
  end.

Definition same_up_to_enabled (h1 h2 : gmap loc (object (V:=V))) : Prop :=
  forget_enabled <$> h1 = forget_enabled <$> h2.

(** The data of the uploads to the projection uniform found in a log. *)
Definition proj_uploads (gl : list (gl_call (V:=V))) : list (list V) :=
  omap (λ c, match c with
             | uniformMatrix4fv uniProj _ data => Some data
             | _ => None
             end) gl.

(** The projection uploads issued so far by the renderer at [this]. *)
Definition projection_of (this : loc) (h : gmap loc (object (V:=V))) : option (list (list V)) :=
  match h !! this with
  | Some (OGLWrapper gl) => Some (proj_uploads gl)
  | _ => None
  end.

(** The result of a computation, when it returns. *)
Definition returned {A} (r : outcome (V:=V) A) : option A :=
  match r with Ret a _ => Some a | Throw _ _ => None end.

Definition final_heap {A} (r : outcome (V:=V) A) : gmap loc (object (V:=V)) :=
  match r with Ret _ h => h | Throw _ h => h end.

(** A method that issues no upload to the projection uniform of [this],
    whether it returns or throws. *)
Definition keeps_projection (this : loc) {A} (c : M (V:=V) A) : Prop :=
  ∀ h, projection_of this (final_heap (c h)) = projection_of this h.

End Specification.

(** ** Exact interpretations of the arithmetic

    [None] stands for every value that is not a finite number ([undefined],
    [NaN], and the infinities a division by zero yields); the operators
    propagate it.  No rounding takes place. *)

Definition lift2 {A} (f : A → A → A) (x y : option A) : option A :=
  match x, y with
  | Some a, Some b => Some (f a b)
  | _, _ => None
  end.

Definition Q_div (x y : option Q) : option Q :=
  match x, y with
  | Some a, Some b => if Qeq_bool b 0 then None else Some (a / b)%Q
  | _, _ => None
  end.

#[export] Instance Q_JSNum : JSNum (option Q) := {|
  undefined := None;
  num z := Some (inject_Z z);
  js_add := lift2 Qplus;
  js_mul := lift2 Qmult;
  js_div := Q_div;
  js_neg := fmap Qopp;
  fround x := x;
|}.

Definition R_div (x y : option R) : option R :=
  match x, y with
  | Some a, Some b => if Req_dec_T b 0 then None else Some (a / b)%R
  | _, _ => None
  end.

#[export] Instance R_JSNum : JSNum (option R) := {|
  undefined := None;
  num z := Some (IZR z);
  js_add := lift2 Rplus;
  js_mul := lift2 Rmult;
  js_div := R_div;
  js_neg := fmap Ropp;
  fround x := x;
|}.

#[export] Instance R_JSMath : JSMath (option R) := {|
  Math_cos := fmap cos;
  Math_sin := fmap sin;
|}.

(** ** The rest of the sources *)

(** Comparison of numbers ([<]); it is [false] when an operand is not a
    number. *)
Class JSCompare (V : Type) := {
  js_lt : V → V → bool;
}.

#[export] Instance Q_JSCompare : JSCompare (option Q) := {|
  js_lt x y :=
    match x, y with
    | Some a, Some b => negb (Qle_bool b a)
    | _, _ => false
    end;
|}.

Section MoreProgram.
Context {V : Type} `{JSMath V} `{JSCompare V}.

(** *** Vector.ts: the named setters *)

Definition Vector_setX (this : loc) (x : V) : M unit :=
  v ← get_v this; store this (OVector (arr_set v 0 x)).
Definition Vector_setY (this : loc) (y : V) : M unit :=
  v ← get_v this; store this (OVector (arr_set v 1 y)).
Definition Vector_setZ (this : loc) (z : V) : M unit :=
  v ← get_v this; store this (OVector (arr_set v 2 z)).
Definition Vector_setW (this : loc) (w : V) : M unit :=
  v ← get_v this; store this (OVector (arr_set v 3 w)).

(** *** GLWrapper.ts: the resize handler

    [resizing] computes the width and height it then assigns to the canvas
    (to [canvas.width], [canvas.height] and the two style properties) from
    [window.innerWidth] and [window.innerHeight]; the pair is returned. *)
Definition resizing (innerWidth innerHeight : V) : V * V :=
  let w := innerWidth in
  let h := innerHeight in
  if js_lt (w * VIEWPORT_HEIGHT / VIEWPORT_WIDTH)%js h
  then (w, (w * VIEWPORT_HEIGHT / VIEWPORT_WIDTH)%js)
  else ((h * VIEWPORT_WIDTH / VIEWPORT_HEIGHT)%js, h).

(** *** index.ts: one run of [loop]

    [loop] clears, draws every [Sprite] of the registry and flushes; it then
    asks the host to call it again, which is left out. *)
Definition loop (gl comManager : loc) : M unit :=
  GLWrapper_clear gl;;
  sprites ← ComponentManager_get comManager "Sprite";
  for_of sprites (λ n, Sprite_draw (GLWrapper_draw gl) n);;
  GLWrapper_flush gl.

(** The calls [GLWrapper.draw] issues for a sprite with fields [s]. *)
Definition sprite_calls (s : Sprite (V:=V)) : list (gl_call (V:=V)) := [
  uniformMatrix4fv uniScl false
    (Float32Array (scaler_raw (scl s).[0] (scl s).[1] (num 1)));
  uniformMatrix4fv uniRot false
    (Float32Array (mul_cells (rotatorX_raw (rot s).[0])
       (mul_cells (rotatorY_raw (rot s).[1]) (rotatorZ_raw (rot s).[2]))));
  uniformMatrix4fv uniTrs false
    (Float32Array (translator_raw (pos s).[0] (pos s).[1] (pos s).[2]));
  uniform4fv uniCol
    (Float32Array [(col s).[0]; (col s).[1]; (col s).[2]; (col s).[3]]);
  drawElements 6].

(** The calls issued for the object at [n], when it is a sprite. *)
Definition calls_of (h : gmap loc (object (V:=V))) (n : loc) : list (gl_call (V:=V)) :=
  match h !! n with
  | Some (OSprite _ s) => sprite_calls s
  | _ => []
  end.

End MoreProgram.

(** *** app/game/typing/TypingManager.ts

    [TypingBuffer] is not among the sources: its three methods are taken as
    parameters, acting on the contents of the buffer.  The keys of a frame,
    [this.app.getInputListener().get()], are the argument of [update]. *)
Class TypingBuffer (B : Type) := {
  buffer_new : B;
  buffer_push : string → B → B;
  buffer_pop : B → B;
  buffer_clear : B → B;
}.

Section Typing.
Context {B : Type} `{TypingBuffer B}.

Record TypingManager := mkTypingManager {
  buffer : B;
  isSubmitted : bool;
}.

Definition TypingManager_new : TypingManager :=
  {| buffer := buffer_new; isSubmitted := false |}.

(** The body of the [for] loop of [update], from the key at the head on. *)
Fixpoint update_keys (keys : list string) (this : TypingManager) : TypingManager :=
  match keys with
  | [] => this
  | c :: keys =>
      if decide (c = "Backspace") then
        update_keys keys {| buffer := buffer_pop (buffer this); isSubmitted := isSubmitted this |}
      else if decide (c = "Enter") then
        {| buffer := buffer this; isSubmitted := true |}
      else
        update_keys keys {| buffer := buffer_push c (buffer this); isSubmitted := isSubmitted this |}
  end.

Definition TypingManager_update (keys : list string) (this : TypingManager) : TypingManager :=
  if isSubmitted this then this else update_keys keys this.

Definition TypingManager_reject (this : TypingManager) : TypingManager :=
  {| buffer := buffer this; isSubmitted := false |}.

Definition TypingManager_clear (this : TypingManager) : TypingManager :=
  {| buffer := buffer_clear (buffer this); isSubmitted := false |}.

Definition TypingManager_getBuffer (this : TypingManager) : B := buffer this.

Definition TypingManager_checkSubmitted (this : TypingManager) : bool := isSubmitted this.

End Typing.

(** A buffer holding the typed keys, oldest first, used to run the typing
    manager on concrete keys. *)
#[export] Instance list_TypingBuffer : TypingBuffer (list string) := {|
  buffer_new := [];
  buffer_push c b := b ++ [c];
  buffer_pop b := removelast b;
  buffer_clear _ := [];
|}.

(** ** Sample data *)

Definition quarter_turn : option R := Some (PI / 2)%R.

Definition sample_raw : list (option Q) := (λ z, Some (inject_Z z)) <$> seqZ 1 16.

Definition sample_matrices : gmap loc (object (V:=option Q)) :=
  {[ 0 := OMatrix sample_raw;
     1 := OMatrix (scaler_raw (Some 2%Q) (Some 3%Q) (Some 1%Q)) ]}.

Definition sample_sprite : Sprite (V:=option R) := {|
  enabled := true;
  pos := [Some 0%R; Some 0%R; Some 40%R];
  rot := [Some 0%R; Some 0%R; quarter_turn];
  scl := [Some 100%R; Some 100%R];
  col := [Some 1%R; Some 0%R; Some 0%R; Some 1%R];
|}.

Definition sample_scene : gmap loc (object (V:=option R)) :=
  {[ 0 := OSprite ["Sprite"] sample_sprite; 1 := OGLWrapper [] ]}.

Definition sample_entity (b : bool) : Sprite (V:=option Q) := {|
  enabled := b;
  pos := [Some 0%Q; Some 0%Q; Some (-20)%Q];
  rot := [Some 0%Q; Some 0%Q; Some 0%Q];
  scl := [Some 200%Q; Some 50%Q];
  col := [Some 0%Q; Some 1%Q; Some 0%Q; Some 1%Q];
|}.

Definition sample_registry (b : bool) : gmap loc (object (V:=option Q)) :=
  {[ 0 := OComponentManager [1; 2];
     1 := OSprite ["Sprite"] (sample_entity b);
     2 := OOther ["Timer"];
     3 := OSprite ["Button"; "Sprite"] (sample_entity true) ]}.

Definition sample_vectors : gmap loc (object (V:=option Q)) :=
  {[ 0 := OVector [Some 1%Q; Some 2%Q; Some 3%Q; Some 4%Q];
     1 := OVector [Some 5%Q; Some 6%Q; Some 7%Q; Some 8%Q] ]}.

Definition sample_real_cells (k : R) : list R :=
  [k; 2; 0; 0; 0; 1; 3; 0; 5; 0; 1; 0; 7; 0; 0; 1]%R.

Definition sample_reals : gmap loc (object (V:=option R)) :=
  {[ 0 := OMatrix (Some <$> sample_real_cells 1);
     1 := OMatrix (Some <$> sample_real_cells 2);
     2 := OMatrix (Some <$> sample_real_cells 3);
     3 := OVector [Some 1%R; Some 2%R; Some 3%R; Some 4%R];
     4 := OVector [Some 5%R; Some 6%R; Some 7%R; Some 8%R] ]}.

Definition sample_renderer : gmap loc (object (V:=option Q)) :=
  {[ 0 := OGLWrapper [gl_clear];
     1 := OMatrix (scaler_raw (Some 100%Q) (Some 100%Q) (Some 1%Q));
     2 := OMatrix identity_raw;
     3 := OMatrix (translator_raw (Some 0%Q) (Some 0%Q) (Some 40%Q));
     4 := OVector [Some 1%Q; Some 0%Q; Some 0%Q; Some 1%Q] ]}.

Definition sample_frame : gmap loc (object (V:=option R)) :=
  {[ 0 := OSprite ["Sprite"] sample_sprite;
     1 := OGLWrapper [];
     2 := OComponentManager [0; 3];
     3 := OOther ["Timer"] ]}.

(** * Properties *)

Section Properties.
Context {V : Type} `{JSMath V}.
Implicit Types (h : gmap loc (object (V:=V))) (raw : list V) (l this : loc).

(** ** Arrays *)

Lemma arr_get_lookup (a : list V) k x : a !! k = Some x → a.[k] = x.
Proof. unfold arr_get. by intros ->. Qed.

Lemma arr_get_ge (a : list V) k : length a ≤ k → a.[k] = undefined.
Proof. intros Hk. unfold arr_get. by rewrite lookup_ge_None_2. Qed.

Lemma arr_get_set_eq (a : list V) k x : (arr_set a k x).[k] = x.
Proof.
  unfold arr_set. case_decide as Hk.
  - apply arr_get_lookup. by apply list_lookup_insert_eq.
  - apply arr_get_lookup.
    rewrite lookup_app_r by lia.
    rewrite lookup_app_r by (rewrite length_replicate; lia).
    rewrite length_replicate.
    by replace (k - length a - (k - length a)) with 0 by lia.
Qed.

Lemma arr_get_set_ne (a : list V) k k' x : k ≠ k' → (arr_set a k x).[k'] = a.[k'].
Proof.
  intros Hne. unfold arr_set. case_decide as Hk.
  - unfold arr_get. by rewrite list_lookup_insert_ne.
  - destruct (decide (k' < length a)) as [Hlt|Hge].
    + unfold arr_get. by rewrite lookup_app_l.
    + rewrite (arr_get_ge a k') by lia.
      destruct (decide (k' < k)) as [Hlt'|Hge'].
      * apply arr_get_lookup.
        rewrite lookup_app_r by lia.
        rewrite lookup_app_l by (rewrite length_replicate; lia).
        apply lookup_replicate_2. lia.
      * apply arr_get_ge.
        rewrite !length_app, length_replicate. simpl. lia.
Qed.

Lemma arr_set_length_in_range (a : list V) k x :
  k < length a → length (arr_set a k x) = length a.
Proof. intros Hk. unfold arr_set. rewrite decide_True by done. apply length_insert. Qed.

Lemma first4 raw :
  4 ≤ length raw → [raw.[0]; raw.[1]; raw.[2]; raw.[3]] = take 4 raw.
Proof.
  intros Hlen. do 4 (destruct raw as [|? raw]; [simpl in Hlen; lia|]). reflexivity.
Qed.

Lemma first16 raw :
  16 ≤ length raw →
  [raw.[0]; raw.[1]; raw.[2]; raw.[3]; raw.[4]; raw.[5]; raw.[6]; raw.[7];
   raw.[8]; raw.[9]; raw.[10]; raw.[11]; raw.[12]; raw.[13]; raw.[14]; raw.[15]]
  = take 16 raw.
Proof.
  intros Hlen. do 16 (destruct raw as [|? raw]; [simpl in Hlen; lia|]). reflexivity.
Qed.

Lemma arr_get_take n raw k : k < n → (take n raw).[k] = raw.[k].
Proof. intros Hk. unfold arr_get. by rewrite lookup_take_lt. Qed.

(** ** The monad *)

Lemma bind_run {A B} (c : M (V:=V) A) (f : A → M B) h :
  (c ≫= f) h = match c h with Ret a h' => f a h' | Throw e h' => Throw e h' end.
Proof. reflexivity. Qed.

Lemma bind_Ret {A B} (c : M (V:=V) A) (f : A → M B) h a h' :
  c h = Ret a h' → (c ≫= f) h = f a h'.
Proof. intros Hc. by rewrite bind_run, Hc. Qed.

Lemma bind_Ret_eq {A B} (c : M (V:=V) A) (f : A → M B) h a h' r :
  c h = Ret a h' → f a h' = r → (c ≫= f) h = r.
Proof. intros Hc <-. by apply bind_Ret. Qed.

Lemma alloc_run o h :
  alloc o h = Ret (fresh (dom h)) (<[fresh (dom h) := o]> h).
Proof. reflexivity. Qed.

Lemma fresh_unused h : h !! fresh (dom h) = None.
Proof. apply not_elem_of_dom, is_fresh. Qed.

Lemma load_run h l o : h !! l = Some o → load l h = Ret o h.
Proof. unfold load. by intros ->. Qed.

Lemma store_run h l o : store l o h = Ret () (<[l := o]> h).
Proof. reflexivity. Qed.

Lemma get_m_run h this m : h !! this = Some (OMatrix m) → get_m this h = Ret m h.
Proof. intros Hm. unfold get_m. by rewrite (bind_Ret _ _ _ _ _ (load_run _ _ _ Hm)). Qed.

Lemma get_v_run h this v : h !! this = Some (OVector v) → get_v this h = Ret v h.
Proof. intros Hv. unfold get_v. by rewrite (bind_Ret _ _ _ _ _ (load_run _ _ _ Hv)). Qed.

(** ** Vector and Matrix: construction and accessors *)

Lemma Vector_new_None h :
  Vector_new None h
  = Ret (fresh (dom h)) (<[fresh (dom h) := OVector [num 0; num 0; num 0; num 0]]> h).
Proof. reflexivity. Qed.

Lemma Vector_new_Some raw h :
  4 ≤ length raw →
  Vector_new (Some raw) h = Ret (fresh (dom h)) (<[fresh (dom h) := OVector (take 4 raw)]> h).
Proof.
  intros Hlen. unfold Vector_new. rewrite decide_True by done.
  by rewrite first4.
Qed.

Lemma Vector_new_short raw h :
  length raw < 4 →
  Vector_new (Some raw) h
  = Throw (Error "Vector(): the length of `raw` parameter must be no fewer than 4: " raw) h.
Proof. intros Hlen. unfold Vector_new. by rewrite decide_False by lia. Qed.

Lemma Matrix_new_None h :
  Matrix_new None h
  = Ret (fresh (dom h)) (<[fresh (dom h) := OMatrix (replicate 16 (num 0))]> h).
Proof. reflexivity. Qed.

Lemma Matrix_new_Some raw h :
  16 ≤ length raw →
  Matrix_new (Some raw) h = Ret (fresh (dom h)) (<[fresh (dom h) := OMatrix (take 16 raw)]> h).
Proof.
  intros Hlen. unfold Matrix_new. rewrite decide_True by done.
  by rewrite first16.
Qed.

Lemma Matrix_new_short raw h :
  length raw < 16 →
  Matrix_new (Some raw) h
  = Throw (Error "Matrix(): the length of `raw` parameter must be no fewer than 16: " raw) h.
Proof. intros Hlen. unfold Matrix_new. by rewrite decide_False by lia. Qed.

Lemma Matrix_at_run h this m i j :
  h !! this = Some (OMatrix m) → Matrix_at this i j h = Ret (cells_at m i j) h.
Proof. intros Hm. unfold Matrix_at. by rewrite (bind_Ret _ _ _ _ _ (get_m_run _ _ _ Hm)). Qed.

Lemma Matrix_setAt_run h this m i j val :
  h !! this = Some (OMatrix m) →
  Matrix_setAt this i j val h = Ret () (<[this := OMatrix (arr_set m (4 * j + i) val)]> h).
Proof. intros Hm. unfold Matrix_setAt. by rewrite (bind_Ret _ _ _ _ _ (get_m_run _ _ _ Hm)). Qed.

Lemma cell_index_inj i j i' j' :
  i < 4 → i' < 4 → 4 * j + i = 4 * j' + i' → (i, j) = (i', j').
Proof. intros. f_equal; lia. Qed.

(** C3. The accessors address entries by mathematical row and column: a
    matrix built from an array [raw] of at least 16 numbers has
    [at(i,j) = raw[4*j + i]] for rows and columns in 0..3; and on a matrix in
    any state, after [setAt(i,j,val)], [at(i,j)] returns [val] and [at] returns at
    every other row and column what it returned before. *)
Theorem Matrix_at_setAt_row_column raw h i j (val : V) i' j' :
  16 ≤ length raw → i < 4 → j < 4 → i' < 4 → j' < 4 → (i', j') ≠ (i, j) →
  ∃ this h1,
    Matrix_new (Some raw) h = Ret this h1 ∧
    Matrix_at this i j h1 = Ret raw.[4 * j + i] h1 ∧
    ∀ h2 m, h2 !! this = Some (OMatrix m) →
      ∃ h3 before,
        Matrix_at this i' j' h2 = Ret before h2 ∧
        Matrix_setAt this i j val h2 = Ret () h3 ∧
        Matrix_at this i j h3 = Ret val h3 ∧
        Matrix_at this i' j' h3 = Ret before h3.
Proof.
  intros Hlen Hi Hj Hi' Hj' Hne.
  eexists _, _. split; [by apply Matrix_new_Some|]. split.
  - erewrite Matrix_at_run by apply lookup_insert_eq.
    unfold cells_at. rewrite arr_get_take by lia. done.
  - intros h2 m Hm. eexists _, _.
    split; [by apply Matrix_at_run|].
    split; [by apply Matrix_setAt_run|].
    split.
    + erewrite Matrix_at_run by apply lookup_insert_eq.
      unfold cells_at. by rewrite arr_get_set_eq.
    + erewrite Matrix_at_run by apply lookup_insert_eq.
      unfold cells_at. rewrite arr_get_set_ne; [done|].
      intros Heq. apply Hne. symmetry. by apply cell_index_inj.
Qed.

(** C6. A [Vector] (resp. [Matrix]) built from an array of fewer than 4
    (resp. 16) numbers throws an error that carries the offending array, and
    allocates nothing; from a longer array it is built and holds exactly the
    first 4 (resp. 16) values; with no argument it is all zeros.  The new
    object is placed at a reference that was not in use. *)
Theorem Vector_Matrix_construction raw h :
  Vector_new (Some raw) h
    = (if decide (length raw < 4)
       then Throw (Error "Vector(): the length of `raw` parameter must be no fewer than 4: " raw) h
       else Ret (fresh (dom h)) (<[fresh (dom h) := OVector (take 4 raw)]> h)) ∧
  Matrix_new (Some raw) h
    = (if decide (length raw < 16)
       then Throw (Error "Matrix(): the length of `raw` parameter must be no fewer than 16: " raw) h
       else Ret (fresh (dom h)) (<[fresh (dom h) := OMatrix (take 16 raw)]> h)) ∧
  Vector_new None h
    = Ret (fresh (dom h)) (<[fresh (dom h) := OVector (replicate 4 (num 0))]> h) ∧
  Matrix_new None h
    = Ret (fresh (dom h)) (<[fresh (dom h) := OMatrix (replicate 16 (num 0))]> h) ∧
  h !! fresh (dom h) = None.
Proof.
  repeat split.
  - case_decide; [by apply Vector_new_short | apply Vector_new_Some; lia].
  - case_decide; [by apply Matrix_new_short | apply Matrix_new_Some; lia].
  - apply fresh_unused.
Qed.

(** ** Matrix multiplication *)

(** The innermost loop reads the two operands and leaves the heap alone. *)
Lemma mul_inner_loop h this m2 A B i j ks acc :
  h !! this = Some (OMatrix A) → h !! m2 = Some (OMatrix B) →
  for_acc ks acc (λ val k,
    a ← Matrix_at this i k; b ← Matrix_at m2 k j; mret (val + a * b)%js) h
  = Ret (fold_left (λ val k, val + cells_at A i k * cells_at B k j)%js ks acc) h.
Proof.
  intros HA HB. revert acc. induction ks as [|k ks IH]; intros acc; [done|].
  simpl. rewrite bind_run, bind_run.
  rewrite (Matrix_at_run _ _ _ _ _ HA), bind_run.
  rewrite (Matrix_at_run _ _ _ _ _ HB). apply IH.
Qed.

(** The cells written while [j] runs over [js] in row [i]. *)
Lemma mul_column_loop h0 this m2 result A B i js R :
  h0 !! this = Some (OMatrix A) → h0 !! m2 = Some (OMatrix B) → h0 !! result = None →
  for_of js (λ j,
    val ← for_acc (seq 0 4) (num 0) (λ val k,
      a ← Matrix_at this i k; b ← Matrix_at m2 k j; mret (val + a * b)%js);
    Matrix_setAt result i j val) (<[result := OMatrix R]> h0)
  = Ret () (<[result :=
      OMatrix (fold_left (λ R j, arr_set R (4 * j + i) (product_entry A B i j)) js R)]> h0).
Proof.
  intros HA HB Hr. revert R. induction js as [|j js IH]; intros R; [done|].
  assert (result ≠ this) by congruence. assert (result ≠ m2) by congruence.
  cbn [for_of]. rewrite bind_run, bind_run.
  rewrite (mul_inner_loop _ this m2 A B) by (by rewrite lookup_insert_ne).
  erewrite Matrix_setAt_run by apply lookup_insert_eq.
  rewrite insert_insert_eq. apply IH.
Qed.

Lemma mul_row_loop h0 this m2 result A B rows R :
  h0 !! this = Some (OMatrix A) → h0 !! m2 = Some (OMatrix B) → h0 !! result = None →
  for_of rows (λ i,
    for_of (seq 0 4) (λ j,
      val ← for_acc (seq 0 4) (num 0) (λ val k,
        a ← Matrix_at this i k; b ← Matrix_at m2 k j; mret (val + a * b)%js);
      Matrix_setAt result i j val)) (<[result := OMatrix R]> h0)
  = Ret () (<[result :=
      OMatrix (fold_left (λ R i,
        fold_left (λ R j, arr_set R (4 * j + i) (product_entry A B i j)) (seq 0 4) R)
        rows R)]> h0).
Proof.
  intros HA HB Hr. revert R. induction rows as [|i rows IH]; intros R; [done|].
  cbn [for_of]. rewrite bind_run.
  rewrite (mul_column_loop _ this m2 result A B) by done.
  apply IH.
Qed.

Lemma mul_cells_filled A B :
  fold_left (λ R i,
    fold_left (λ R j, arr_set R (4 * j + i) (product_entry A B i j)) (seq 0 4) R)
    (seq 0 4) (replicate 16 (num 0))
  = mul_cells A B.
Proof. reflexivity. Qed.

Lemma Matrix_mul_run h this m2 A B :
  h !! this = Some (OMatrix A) → h !! m2 = Some (OMatrix B) →
  Matrix_mul this m2 h
  = Ret (fresh (dom h)) (<[fresh (dom h) := OMatrix (mul_cells A B)]> h).
Proof.
  intros HA HB. unfold Matrix_mul.
  rewrite bind_run, Matrix_new_None, bind_run.
  rewrite (mul_row_loop _ this m2 _ A B) by (done || apply fresh_unused).
  by rewrite mul_cells_filled.
Qed.

Lemma mul_cells_at A B i j :
  i < 4 → j < 4 → cells_at (mul_cells A B) i j = product_entry A B i j.
Proof.
  intros Hi Hj. unfold cells_at, mul_cells.
  apply arr_get_lookup. rewrite list_lookup_fmap.
  rewrite lookup_seq_lt by lia. cbn [fmap option_fmap option_map Nat.add].
  destruct i as [|[|[|[|]]]]; try lia; destruct j as [|[|[|[|]]]]; try lia; reflexivity.
Qed.

(** C2. [A.mul(B)] returns a matrix at a reference that was not in use, whose
    entry in row [i], column [j] is the sum over [k] of
    [A.at(i,k) * B.at(k,j)]; the call leaves [A], [B] and every other object
    that existed before unchanged (also when [A] and [B] are one object). *)
Theorem Matrix_mul_product h this m2 A B i j :
  h !! this = Some (OMatrix A) → h !! m2 = Some (OMatrix B) → i < 4 → j < 4 →
  ∃ result h',
    Matrix_mul this m2 h = Ret result h' ∧
    h !! result = None ∧
    Matrix_at result i j h' = Ret (sum4 (λ k, cells_at A i k * cells_at B k j)%js) h' ∧
    (∀ k, Matrix_at this i k h = Ret (cells_at A i k) h ∧
          Matrix_at m2 k j h = Ret (cells_at B k j) h) ∧
    h' !! this = Some (OMatrix A) ∧ h' !! m2 = Some (OMatrix B) ∧
    ∀ l o, h !! l = Some o → h' !! l = Some o.
Proof.
  intros HA HB Hi Hj.
  pose proof (fresh_unused h) as Hfresh.
  assert (∀ l o, h !! l = Some o →
    <[fresh (dom h) := OMatrix (mul_cells A B)]> h !! l = Some o) as Hkeep.
  { intros l o Hl. rewrite lookup_insert_ne; [done|congruence]. }
  eexists _, _. split; [by apply Matrix_mul_run|].
  split; [done|]. split.
  - erewrite Matrix_at_run by apply lookup_insert_eq.
    by rewrite mul_cells_at.
  - split; [|by auto].
    intros k. by rewrite !(Matrix_at_run _ _ _ _ _ HA), !(Matrix_at_run _ _ _ _ _ HB).
Qed.

(** ** The static constructors *)

Lemma Matrix_new_16 raw h :
  length raw = 16 →
  Matrix_new (Some raw) h = Ret (fresh (dom h)) (<[fresh (dom h) := OMatrix raw]> h).
Proof.
  intros Hlen. rewrite Matrix_new_Some by lia. by rewrite take_ge by lia.
Qed.

(** What an allocating expression does to the heap: the result is a
    reference that was not in use, it holds [o], and every object that
    existed is still there, unchanged. *)
Lemma insert_fresh_ext h o :
  h !! fresh (dom h) = None ∧
  <[fresh (dom h) := o]> h !! fresh (dom h) = Some o ∧
  h ⊆ <[fresh (dom h) := o]> h.
Proof.
  pose proof (fresh_unused h).
  split; [done|]. split; [apply lookup_insert_eq|by apply insert_subseteq].
Qed.

Lemma Matrix_new_16_ext raw h :
  length raw = 16 →
  ∃ l h', Matrix_new (Some raw) h = Ret l h' ∧
    h !! l = None ∧ h' !! l = Some (OMatrix raw) ∧ h ⊆ h'.
Proof. intros Hlen. eexists _, _. split; [by apply Matrix_new_16|apply insert_fresh_ext]. Qed.

Lemma Matrix_mul_ext h this m2 A B :
  h !! this = Some (OMatrix A) → h !! m2 = Some (OMatrix B) →
  ∃ l h', Matrix_mul this m2 h = Ret l h' ∧
    h !! l = None ∧ h' !! l = Some (OMatrix (mul_cells A B)) ∧ h ⊆ h'.
Proof. intros HA HB. eexists _, _. split; [by apply Matrix_mul_run|apply insert_fresh_ext]. Qed.

Lemma Vector_new_4_ext raw h :
  length raw = 4 →
  ∃ l h', Vector_new (Some raw) h = Ret l h' ∧
    h !! l = None ∧ h' !! l = Some (OVector raw) ∧ h ⊆ h'.
Proof.
  intros Hlen. eexists _, _. split; [|apply insert_fresh_ext].
  rewrite Vector_new_Some by lia. by rewrite take_ge by lia.
Qed.

(** The rotation constructors hold, in row [i] and column [j], the entry the
    standard right-handed rotation matrix has in row [j] and column [i]:
    they build its transpose, the rotation by the opposite angle. *)
Lemma rotators_transposed (r : V) i j :
  i < 4 → j < 4 →
  cells_at (rotatorX_raw r) i j = standard_rotationX r j i ∧
  cells_at (rotatorY_raw r) i j = standard_rotationY r j i ∧
  cells_at (rotatorZ_raw r) i j = standard_rotationZ r j i.
Proof.
  intros Hi Hj.
  destruct i as [|[|[|[|]]]]; try lia; destruct j as [|[|[|[|]]]]; try lia; done.
Qed.

Lemma translator_column (x y z : V) :
  cells_at (translator_raw x y z) 0 3 = x ∧
  cells_at (translator_raw x y z) 1 3 = y ∧
  cells_at (translator_raw x y z) 2 3 = z.
Proof. done. Qed.

End Properties.

(** C1. At the angle [quarter_turn], which is [PI / 2] over the reals: [rotatorX], [rotatorY] and
    [rotatorZ] return matrices whose entries, read through [at], are those of
    the transposes of the standard right-handed rotations.  [rotatorZ] has
    [at(0,1) = 1] where the standard matrix has [- sin r = -1]; likewise
    [rotatorX] at row 1, column 2 and [rotatorY] at row 0, column 2. *)
Theorem rotators_at_quarter_turn :
  ∃ x y z hx hy hz,
    Matrix_rotatorX quarter_turn ∅ = Ret x hx ∧
    Matrix_rotatorY quarter_turn ∅ = Ret y hy ∧
    Matrix_rotatorZ quarter_turn ∅ = Ret z hz ∧
    Matrix_at x 1 2 hx = Ret (Some 1%R) hx ∧
    standard_rotationX quarter_turn 1 2 = Some (- 1)%R ∧
    Matrix_at y 0 2 hy = Ret (Some (- 1)%R) hy ∧
    standard_rotationY quarter_turn 0 2 = Some 1%R ∧
    Matrix_at z 0 1 hz = Ret (Some 1%R) hz ∧
    standard_rotationZ quarter_turn 0 1 = Some (- 1)%R ∧
    Some 1%R ≠ Some (- 1)%R.
Proof.
  set (r := quarter_turn).
  eexists _, _, _, _, _, _.
  split; [by apply Matrix_new_16|].
  split; [by apply Matrix_new_16|].
  split; [by apply Matrix_new_16|].
  assert (Math_sin r = Some 1%R) as Hsin.
  { unfold r, quarter_turn. simpl. by rewrite sin_PI2. }
  repeat split.
  - erewrite Matrix_at_run by apply lookup_insert_eq.
    change (cells_at (rotatorX_raw r) 1 2) with (Math_sin r). by rewrite Hsin.
  - change (standard_rotationX r 1 2) with (- Math_sin r)%js. by rewrite Hsin.
  - erewrite Matrix_at_run by apply lookup_insert_eq.
    change (cells_at (rotatorY_raw r) 0 2) with (- Math_sin r)%js. by rewrite Hsin.
  - change (standard_rotationY r 0 2) with (Math_sin r). exact Hsin.
  - erewrite Matrix_at_run by apply lookup_insert_eq.
    change (cells_at (rotatorZ_raw r) 0 1) with (Math_sin r). by rewrite Hsin.
  - change (standard_rotationZ r 0 1) with (- Math_sin r)%js. by rewrite Hsin.
  - intros [= Heq]. clear - Heq. lra.
Qed.

(** ** Sprite *)

Section SpriteProperties.
Context {V : Type} `{JSMath V}.
Implicit Types (h : gmap loc (object (V:=V))) (this : loc) (s : Sprite (V:=V)).

Lemma get_sprite_run h this proto s :
  h !! this = Some (OSprite proto s) → get_sprite this h = Ret (proto, s) h.
Proof. intros Hs. unfold get_sprite. by rewrite (bind_Ret _ _ _ _ _ (load_run _ _ _ Hs)). Qed.

Lemma Sprite_field_run {A} (f : Sprite → A) h this proto s :
  h !! this = Some (OSprite proto s) → Sprite_field f this h = Ret (f s) h.
Proof.
  intros Hs. unfold Sprite_field.
  by rewrite (bind_Ret _ _ _ _ _ (get_sprite_run _ _ _ _ Hs)).
Qed.

Lemma Sprite_update_run f h this proto s :
  h !! this = Some (OSprite proto s) →
  Sprite_update f this h = Ret () (<[this := OSprite proto (f s)]> h).
Proof.
  intros Hs. unfold Sprite_update.
  by rewrite (bind_Ret _ _ _ _ _ (get_sprite_run _ _ _ _ Hs)).
Qed.

(** C4. [draw] reads the current fields of the sprite and calls the
    renderer's [draw] with four newly allocated objects, in this order: the
    matrix [scaler(sx, sy, 1)], the product
    [rotatorX(rx).mul(rotatorY(ry).mul(rotatorZ(rz)))], the matrix
    [translator(px, py, pz)] and the vector [(r, g, b, a)].  Nothing that
    existed before the call has changed when the renderer is entered, and
    [draw] does nothing after the renderer returns. *)
Theorem Sprite_draw_forwards
    (gl_draw : loc → loc → loc → loc → M unit) h this proto
    (e : bool) (px py pz rx ry rz sx sy r g b a : V) :
  h !! this = Some (OSprite proto
    {| enabled := e; pos := [px; py; pz]; rot := [rx; ry; rz];
       scl := [sx; sy]; col := [r; g; b; a] |}) →
  ∃ matScl matRot matTrs vecCol h',
    Sprite_draw gl_draw this h = gl_draw matScl matRot matTrs vecCol h' ∧
    h' !! matScl = Some (OMatrix (scaler_raw sx sy (num 1))) ∧
    h' !! matRot = Some (OMatrix
      (mul_cells (rotatorX_raw rx) (mul_cells (rotatorY_raw ry) (rotatorZ_raw rz)))) ∧
    h' !! matTrs = Some (OMatrix (translator_raw px py pz)) ∧
    h' !! vecCol = Some (OVector [r; g; b; a]) ∧
    h !! matScl = None ∧ h !! matRot = None ∧ h !! matTrs = None ∧ h !! vecCol = None ∧
    h ⊆ h'.
Proof.
  intros Hs.
  destruct (Matrix_new_16_ext (scaler_raw sx sy (num 1)) h eq_refl)
    as (matScl & h1 & Hr1 & Hn1 & Hscl & Hsub1).
  destruct (Matrix_new_16_ext (rotatorX_raw rx) h1 eq_refl)
    as (mx & h2 & Hr2 & Hn2 & Hx & Hsub2).
  destruct (Matrix_new_16_ext (rotatorY_raw ry) h2 eq_refl)
    as (my & h3 & Hr3 & Hn3 & Hy & Hsub3).
  destruct (Matrix_new_16_ext (rotatorZ_raw rz) h3 eq_refl)
    as (mz & h4 & Hr4 & Hn4 & Hz & Hsub4).
  destruct (Matrix_mul_ext h4 my mz _ _ (lookup_weaken _ _ _ _ Hy Hsub4) Hz)
    as (myz & h5 & Hr5 & Hn5 & Hyz & Hsub5).
  assert (h2 ⊆ h5) as Hsub25 by (etrans; [exact Hsub3|]; by etrans).
  destruct (Matrix_mul_ext h5 mx myz _ _ (lookup_weaken _ _ _ _ Hx Hsub25) Hyz)
    as (matRot & h6 & Hr6 & Hn6 & Hrot & Hsub6).
  destruct (Matrix_new_16_ext (translator_raw px py pz) h6 eq_refl)
    as (matTrs & h7 & Hr7 & Hn7 & Htrs & Hsub7).
  destruct (Vector_new_4_ext [r; g; b; a] h7 eq_refl)
    as (vecCol & h8 & Hr8 & Hn8 & Hcol & Hsub8).
  assert (h ⊆ h2) as Hsub02 by (etrans; [exact Hsub1|exact Hsub2]).
  assert (h ⊆ h3) as Hsub03 by (etrans; [exact Hsub02|exact Hsub3]).
  assert (h ⊆ h5) as Hsub05 by (etrans; [exact Hsub02|exact Hsub25]).
  assert (h ⊆ h6) as Hsub06 by (etrans; [exact Hsub05|exact Hsub6]).
  assert (h ⊆ h7) as Hsub07 by (etrans; [exact Hsub06|exact Hsub7]).
  assert (h ⊆ h8) as Hsub08 by (etrans; [exact Hsub07|exact Hsub8]).
  assert (h6 ⊆ h8) as Hsub68 by (etrans; [exact Hsub7|exact Hsub8]).
  assert (h1 ⊆ h8) as Hsub18.
  { etrans; [exact Hsub2|]. etrans; [exact Hsub25|]. etrans; [exact Hsub6|exact Hsub68]. }
  exists matScl, matRot, matTrs, vecCol, h8.
  split.
  { unfold Sprite_draw.
    do 2 (eapply bind_Ret_eq; [by eapply Sprite_field_run|]).
    eapply bind_Ret_eq; [exact Hr1|].
    eapply bind_Ret_eq;
      [eapply Sprite_field_run; exact (lookup_weaken _ _ _ _ Hs Hsub1)|].
    eapply bind_Ret_eq; [exact Hr2|].
    eapply bind_Ret_eq;
      [eapply Sprite_field_run; exact (lookup_weaken _ _ _ _ Hs Hsub02)|].
    eapply bind_Ret_eq; [exact Hr3|].
    eapply bind_Ret_eq;
      [eapply Sprite_field_run; exact (lookup_weaken _ _ _ _ Hs Hsub03)|].
    eapply bind_Ret_eq; [exact Hr4|].
    eapply bind_Ret_eq; [exact Hr5|].
    eapply bind_Ret_eq; [exact Hr6|].
    do 3 (eapply bind_Ret_eq;
      [eapply Sprite_field_run; exact (lookup_weaken _ _ _ _ Hs Hsub06)|]).
    eapply bind_Ret_eq; [exact Hr7|].
    do 4 (eapply bind_Ret_eq;
      [eapply Sprite_field_run; exact (lookup_weaken _ _ _ _ Hs Hsub07)|]).
    eapply bind_Ret_eq; [exact Hr8|].
    reflexivity. }
  split; [exact (lookup_weaken _ _ _ _ Hscl Hsub18)|].
  split; [exact (lookup_weaken _ _ _ _ Hrot Hsub68)|].
  split; [exact (lookup_weaken _ _ _ _ Htrs Hsub8)|].
  split; [exact Hcol|].
  split; [exact Hn1|].
  split; [exact (lookup_weaken_None _ _ _ Hn6 Hsub05)|].
  split; [exact (lookup_weaken_None _ _ _ Hn7 Hsub06)|].
  split; [exact (lookup_weaken_None _ _ _ Hn8 Hsub07)|].
  exact Hsub08.
Qed.

(** C9. A sprite constructed with no arguments reports position [0,0,0],
    rotation [0,0,0], scale [1,1] and colour [0,0,0,0], and is enabled. *)
Theorem Sprite_new_defaults h :
  ∃ this h',
    Sprite_new None None None None h = Ret this h' ∧
    h !! this = None ∧
    Sprite_getPosition this h' = Ret [num 0; num 0; num 0] h' ∧
    Sprite_getRotation this h' = Ret [num 0; num 0; num 0] h' ∧
    Sprite_getScale this h' = Ret [num 1; num 1] h' ∧
    Sprite_getColor this h' = Ret [num 0; num 0; num 0; num 0] h' ∧
    Sprite_isEnabled this h' = Ret true h'.
Proof.
  eexists _, _. split; [reflexivity|]. split; [apply fresh_unused|].
  unfold Sprite_getPosition, Sprite_getRotation, Sprite_getScale, Sprite_getColor,
    Sprite_isEnabled.
  repeat split; by erewrite Sprite_field_run by apply lookup_insert_eq.
Qed.

(** Setting the flag to [b] leaves the four other fields, the class and
    every other object as they were. *)
Lemma Sprite_flag_frame (b : bool) h this proto s :
  h !! this = Some (OSprite proto s) →
  ∃ h',
    Sprite_update (set_enabled b) this h = Ret () h' ∧
    Sprite_isEnabled this h' = Ret b h' ∧
    Sprite_getPosition this h' = Ret (pos s) h' ∧
    Sprite_getRotation this h' = Ret (rot s) h' ∧
    Sprite_getScale this h' = Ret (scl s) h' ∧
    Sprite_getColor this h' = Ret (col s) h' ∧
    h' = <[this := OSprite proto (set_enabled b s)]> h.
Proof.
  intros Hs. eexists. split; [by apply Sprite_update_run|].
  unfold Sprite_getPosition, Sprite_getRotation, Sprite_getScale, Sprite_getColor,
    Sprite_isEnabled.
  repeat split; by erewrite Sprite_field_run by apply lookup_insert_eq.
Qed.

(** C10. [enable()] and [disable()] change the [enabled] flag only: after
    [enable()], [isEnabled()] returns [true], after [disable()] it returns
    [false], and in both cases the four getters return what they returned
    before and every other object is unchanged. *)
Theorem Sprite_enable_disable_frame h this proto s :
  h !! this = Some (OSprite proto s) →
  ∃ position rotation scale color,
    Sprite_getPosition this h = Ret position h ∧
    Sprite_getRotation this h = Ret rotation h ∧
    Sprite_getScale this h = Ret scale h ∧
    Sprite_getColor this h = Ret color h ∧
    ∀ (b : bool), ∃ h',
      (if b then Sprite_enable this h else Sprite_disable this h) = Ret () h' ∧
      Sprite_isEnabled this h' = Ret b h' ∧
      Sprite_getPosition this h' = Ret position h' ∧
      Sprite_getRotation this h' = Ret rotation h' ∧
      Sprite_getScale this h' = Ret scale h' ∧
      Sprite_getColor this h' = Ret color h' ∧
      ∀ l, l ≠ this → h' !! l = h !! l.
Proof.
  intros Hs. exists (pos s), (rot s), (scl s), (col s).
  do 4 (split; [by apply (Sprite_field_run _ _ _ _ _ Hs)|]).
  intros b.
  destruct (Sprite_flag_frame b h this proto s Hs)
    as (h' & Hrun & Hflag & Hpos & Hrot & Hscl & Hcol & ->).
  eexists. split; [by destruct b|].
  do 5 (split; [done|]).
  intros l Hl. by rewrite lookup_insert_ne.
Qed.

End SpriteProperties.

(** ** ComponentManager *)

Section RegistryProperties.
Context {V : Type} `{JSNum V}.
Implicit Types (h : gmap loc (object (V:=V))) (this n : loc) (cs : list loc).

Lemma filter_none {A} (P : A → Prop) `{∀ x, Decision (P x)} (xs : list A) :
  Forall (λ x, ¬ P x) xs → filter P xs = [].
Proof.
  induction 1 as [|x xs Hx _ IH]; [done|]. by rewrite filter_cons_False.
Qed.

Lemma get_components_run h this cs :
  h !! this = Some (OComponentManager cs) → get_components this h = Ret cs h.
Proof.
  intros Hm. unfold get_components. by rewrite (bind_Ret _ _ _ _ _ (load_run _ _ _ Hm)).
Qed.

Lemma ComponentManager_add_run h this cs n :
  h !! this = Some (OComponentManager cs) →
  ComponentManager_add this n h = Ret () (<[this := OComponentManager (cs ++ [n])]> h).
Proof.
  intros Hm. unfold ComponentManager_add.
  by rewrite (bind_Ret _ _ _ _ _ (get_components_run _ _ _ Hm)).
Qed.

Lemma ComponentManager_adds_run h this cs added :
  h !! this = Some (OComponentManager cs) →
  for_of added (ComponentManager_add this) h
  = Ret () (<[this := OComponentManager (cs ++ added)]> h).
Proof.
  revert h cs. induction added as [|n added IH]; intros h cs Hm.
  - simpl. rewrite app_nil_r. by rewrite insert_id.
  - cbn [for_of]. rewrite bind_run, (ComponentManager_add_run _ _ _ _ Hm).
    rewrite (IH _ (cs ++ [n])) by apply lookup_insert_eq.
    by rewrite insert_insert_eq, <- app_assoc.
Qed.

Lemma instanceof_run h n type :
  is_Some (h !! n) → instanceof n type h = Ret (is_instance h type n) h.
Proof.
  intros [o Ho]. unfold instanceof, is_instance.
  by rewrite (bind_Ret _ _ _ _ _ (load_run _ _ _ Ho)), Ho.
Qed.

Lemma get_loop h type cs (res : list loc) :
  Forall (λ n, is_Some (h !! n)) cs →
  for_acc cs res (λ (res : list loc) (n : loc),
    b ← instanceof n type; mret (if (b : bool) then res ++ [n] else res)) h
  = Ret (res ++ filter (λ n, is_instance h type n) cs) h.
Proof.
  intros Hlive. revert res. induction Hlive as [|n cs Hn Hlive IH]; intros res.
  - simpl. by rewrite app_nil_r.
  - cbn [for_acc].
    eapply bind_Ret_eq; [eapply bind_Ret_eq; [by apply instanceof_run|reflexivity]|].
    rewrite IH. destruct (is_instance h type n) eqn:Hinst.
    + rewrite filter_cons_True by (by rewrite Hinst). by rewrite <- app_assoc.
    + rewrite filter_cons_False by (rewrite Hinst; simpl; tauto). done.
Qed.

Lemma ComponentManager_get_run h this cs type :
  h !! this = Some (OComponentManager cs) →
  Forall (λ n, is_Some (h !! n)) cs →
  ComponentManager_get this type h = Ret (filter (λ n, is_instance h type n) cs) h.
Proof.
  intros Hm Hlive. unfold ComponentManager_get.
  rewrite (bind_Ret _ _ _ _ _ (get_components_run _ _ _ Hm)).
  by rewrite get_loop.
Qed.

(** C5. On a registry holding [stored], after [add] has been called on each
    of [added] in turn, [get(type)] returns the components, stored and
    added, whose run-time type is [type] or a class extending it, in the
    order in which they were added; this is the empty list when none
    matches; and [get] leaves the heap, hence the stored collection, as it
    was. *)
Theorem ComponentManager_get_instances h this stored added type :
  h !! this = Some (OComponentManager stored) →
  Forall (λ n, is_Some (h !! n)) (stored ++ added) →
  ∃ h',
    for_of added (ComponentManager_add this) h = Ret () h' ∧
    h' !! this = Some (OComponentManager (stored ++ added)) ∧
    (∀ l, l ≠ this → h' !! l = h !! l) ∧
    ComponentManager_get this type h'
      = Ret (filter (λ n, is_instance h' type n) (stored ++ added)) h' ∧
    (Forall (λ n, ¬ is_instance h' type n) (stored ++ added) →
     ComponentManager_get this type h' = Ret [] h').
Proof.
  intros Hm Hlive.
  eexists. split; [by apply ComponentManager_adds_run|].
  split; [apply lookup_insert_eq|].
  split; [intros l Hl; by rewrite lookup_insert_ne|].
  assert (ComponentManager_get this type (<[this:=OComponentManager (stored ++ added)]> h)
    = Ret (filter (λ n, is_instance (<[this:=OComponentManager (stored ++ added)]> h) type n)
             (stored ++ added))
          (<[this:=OComponentManager (stored ++ added)]> h)) as Hget.
  { apply ComponentManager_get_run; [apply lookup_insert_eq|].
    eapply Forall_impl; [exact Hlive|]. intros n Hn. cbv beta in *.
    destruct (decide (this = n)) as [->|Hne].
    - rewrite lookup_insert_eq. by eexists.
    - by rewrite lookup_insert_ne. }
  split; [exact Hget|].
  intros Hnone. rewrite Hget. f_equal. by apply filter_none.
Qed.

(** *** [get] and the [enabled] flags *)

Lemma same_up_to_enabled_lookup h1 h2 l :
  same_up_to_enabled h1 h2 →
  forget_enabled <$> (h1 !! l) = forget_enabled <$> (h2 !! l).
Proof. unfold same_up_to_enabled. intros Heq. by rewrite <- !lookup_fmap, Heq. Qed.

Lemma proto_of_forget_enabled (o : object (V:=V)) :
  proto_of (forget_enabled o) = proto_of o.
Proof. by destruct o. Qed.

Lemma set_enabled_same h this proto (s : Sprite (V:=V)) (b : bool) :
  h !! this = Some (OSprite proto s) →
  same_up_to_enabled h (<[this := OSprite proto (set_enabled b s)]> h).
Proof.
  intros Hs. unfold same_up_to_enabled. rewrite fmap_insert.
  symmetry. apply insert_id. by rewrite lookup_fmap, Hs.
Qed.

Lemma instanceof_same h1 h2 n type :
  same_up_to_enabled h1 h2 →
  (∃ b, instanceof n type h1 = Ret b h1 ∧ instanceof n type h2 = Ret b h2) ∨
  (instanceof n type h1 = Throw TypeError h1 ∧ instanceof n type h2 = Throw TypeError h2).
Proof.
  intros Hsame. pose proof (same_up_to_enabled_lookup _ _ n Hsame) as Hn.
  unfold instanceof. rewrite !bind_run. unfold load.
  destruct (h1 !! n) as [o1|], (h2 !! n) as [o2|]; simpl in Hn; try discriminate Hn.
  - injection Hn as Hn. left. exists (bool_decide (type ∈ proto_of o1)). split; [done|].
    by rewrite <- (proto_of_forget_enabled o1), <- (proto_of_forget_enabled o2), Hn.
  - by right.
Qed.

Lemma get_loop_same h1 h2 type cs (res : list loc) :
  same_up_to_enabled h1 h2 →
  returned (for_acc cs res (λ (res : list loc) (n : loc),
    b ← instanceof n type; mret (if (b : bool) then res ++ [n] else res)) h1)
  = returned (for_acc cs res (λ (res : list loc) (n : loc),
    b ← instanceof n type; mret (if (b : bool) then res ++ [n] else res)) h2).
Proof.
  intros Hsame. revert res. induction cs as [|n cs IH]; intros res; [done|].
  cbn [for_acc]. rewrite !bind_run.
  destruct (instanceof_same _ _ n type Hsame) as [(b & -> & ->)|[-> ->]]; [|done].
  apply IH.
Qed.

Lemma ComponentManager_get_same h1 h2 this type :
  same_up_to_enabled h1 h2 →
  returned (ComponentManager_get this type h1)
  = returned (ComponentManager_get this type h2).
Proof.
  intros Hsame. pose proof (same_up_to_enabled_lookup _ _ this Hsame) as Hthis.
  unfold ComponentManager_get, get_components. rewrite !bind_run. unfold load.
  destruct (h1 !! this) as [o1|], (h2 !! this) as [o2|];
    simpl in Hthis; try discriminate Hthis; [|done].
  injection Hthis as Hthis.
  destruct o1, o2; simpl in Hthis; try discriminate Hthis; try done.
  injection Hthis as ->. by apply get_loop_same.
Qed.

(** C8. The result of [get(type)] does not depend on the [enabled] flags:
    in two heaps that differ at most in the flags of their sprites, [get]
    returns the same components in the same order (or fails in both).  In
    particular, after [disable()] on a stored sprite whose class is [type] or
    extends it, [get(type)] still returns that sprite, in the same result as
    before. *)
Theorem ComponentManager_get_ignores_enabled h1 h2 this type :
  same_up_to_enabled h1 h2 →
  returned (ComponentManager_get this type h1)
    = returned (ComponentManager_get this type h2) ∧
  ∀ cs n proto (s : Sprite (V:=V)),
    h1 !! this = Some (OComponentManager cs) →
    Forall (λ n, is_Some (h1 !! n)) cs →
    n ∈ cs → h1 !! n = Some (OSprite proto s) → type ∈ proto →
    ∃ h3 res,
      Sprite_disable n h1 = Ret () h3 ∧
      Sprite_isEnabled n h3 = Ret false h3 ∧
      ComponentManager_get this type h3 = Ret res h3 ∧
      n ∈ res ∧
      ComponentManager_get this type h1 = Ret res h1.
Proof.
  intros Hsame. split; [by apply ComponentManager_get_same|].
  intros cs n proto s Hm Hlive Hn Hs Htype.
  assert (this ≠ n) as Hne by congruence.
  pose proof (set_enabled_same _ _ _ _ false Hs) as Hsame'.
  set (h3 := <[n := OSprite proto (set_enabled false s)]> h1) in *.
  assert (ComponentManager_get this type h1
    = Ret (filter (λ n, is_instance h1 type n) cs) h1) as Hget1
    by (by apply ComponentManager_get_run).
  assert (ComponentManager_get this type h3
    = Ret (filter (λ n, is_instance h3 type n) cs) h3) as Hget3.
  { apply ComponentManager_get_run.
    - unfold h3. by rewrite lookup_insert_ne.
    - eapply Forall_impl; [exact Hlive|]. intros l Hl. cbv beta in *. unfold h3.
      destruct (decide (n = l)) as [->|Hnl].
      + rewrite lookup_insert_eq. by eexists.
      + by rewrite lookup_insert_ne. }
  pose proof (ComponentManager_get_same _ _ this type Hsame') as Heq.
  rewrite Hget1, Hget3 in Heq. simpl in Heq. injection Heq as Heq.
  exists h3, (filter (λ n, is_instance h1 type n) cs).
  split; [by apply Sprite_update_run|].
  split; [unfold Sprite_isEnabled; by erewrite Sprite_field_run by apply lookup_insert_eq|].
  split; [by rewrite Hget3, Heq|].
  split; [|done].
  apply list_elem_of_filter. split; [|done].
  unfold is_instance. rewrite Hs. simpl. by apply bool_decide_pack.
Qed.

End RegistryProperties.

(** ** GLWrapper *)

Section RendererProperties.
Context {V : Type} `{JSNum V}.
Implicit Types (h : gmap loc (object (V:=V))) (this : loc).

Lemma keeps_projection_bind this {A B} (c : M (V:=V) A) (f : A → M B) :
  keeps_projection this c → (∀ a, keeps_projection this (f a)) →
  keeps_projection this (c ≫= f).
Proof.
  intros Hc Hf h. rewrite bind_run. specialize (Hc h).
  destruct (c h) as [a h'|e h']; simpl in Hc; [|done].
  by rewrite (Hf a h').
Qed.

Lemma keeps_projection_pure this {A} (c : M (V:=V) A) :
  (∀ h, final_heap (c h) = h) → keeps_projection this c.
Proof. intros Hc h. by rewrite Hc. Qed.

Lemma load_pure l h : final_heap (load l h) = h.
Proof. unfold load. by destruct (h !! l). Qed.

Lemma get_m_pure l h : final_heap (get_m l h) = h.
Proof.
  unfold get_m. rewrite bind_run. unfold load.
  destruct (h !! l) as [[]|]; done.
Qed.

Lemma get_v_pure l h : final_heap (get_v l h) = h.
Proof.
  unfold get_v. rewrite bind_run. unfold load.
  destruct (h !! l) as [[]|]; done.
Qed.

Lemma Matrix_get_pure l h : final_heap (Matrix_get l h) = h.
Proof.
  unfold Matrix_get. rewrite bind_run. pose proof (get_m_pure l h) as Hm.
  by destruct (get_m l h).
Qed.

Lemma Vector_get_pure l h : final_heap (Vector_get l h) = h.
Proof.
  unfold Vector_get. rewrite bind_run. pose proof (get_v_pure l h) as Hv.
  by destruct (get_v l h).
Qed.

Lemma proj_uploads_snoc (gl : list (gl_call (V:=V))) c :
  (∀ transpose data, c ≠ uniformMatrix4fv uniProj transpose data) →
  proj_uploads (gl ++ [c]) = proj_uploads gl.
Proof.
  intros Hc. unfold proj_uploads. rewrite omap_app. simpl.
  destruct c as [[] ? ?| | | |]; rewrite ?app_nil_r; try done.
  by destruct (Hc transpose data).
Qed.

Lemma gl_issue_keeps_projection this l (c : gl_call (V:=V)) :
  (∀ transpose data, c ≠ uniformMatrix4fv uniProj transpose data) →
  keeps_projection this (gl_issue l c).
Proof.
  intros Hc h. unfold gl_issue, get_gl. rewrite !bind_run. unfold load.
  destruct (h !! l) as [[]|] eqn:Hl; try done.
  simpl. unfold projection_of.
  destruct (decide (l = this)) as [->|Hne].
  - rewrite lookup_insert_eq, Hl. by rewrite proj_uploads_snoc.
  - by rewrite lookup_insert_ne.
Qed.

Lemma GLWrapper_methods_keep_projection this l matScl matRot matTrs vecCol :
  keeps_projection (V:=V) this (GLWrapper_clear l) ∧
  keeps_projection (V:=V) this (GLWrapper_draw l matScl matRot matTrs vecCol) ∧
  keeps_projection (V:=V) this (GLWrapper_flush l).
Proof.
  split; [by apply gl_issue_keeps_projection|].
  split; [|by apply gl_issue_keeps_projection].
  unfold GLWrapper_draw.
  repeat first
    [ by apply gl_issue_keeps_projection
    | by (apply keeps_projection_pure; intros ?; apply Matrix_get_pure)
    | by (apply keeps_projection_pure; intros ?; apply Vector_get_pure)
    | apply keeps_projection_bind; [|intros ?] ].
Qed.

Lemma GLWrapper_new_projection h :
  ∃ this h',
    GLWrapper_new h = Ret this h' ∧ h !! this = None ∧
    projection_of this h' = Some [matProj].
Proof.
  eexists _, _. split; [reflexivity|]. split; [apply fresh_unused|].
  unfold projection_of. by rewrite lookup_insert_eq.
Qed.

End RendererProperties.

Lemma matProj_Q :
  matProj (V:=option Q) =
  [Some (2 # 1280); Some 0; Some 0; Some 0;
   Some 0; Some (2 # 960); Some 0; Some 0;
   Some 0; Some 0; Some (-2 # 100); Some 0;
   Some 0; Some 0; Some 0; Some 1]%Q.
Proof. reflexivity. Qed.

(** C7. Over exact rational arithmetic: the renderer's constructor uploads
    the projection matrix once, no later method uploads it again, and the
    matrix is [diag(2/1280, 2/960, -2/100, 1)].  It maps a point
    [(X, Y, Z, 1)] with [X] in [-640, 640], [Y] in [-480, 480] and [Z] in
    [-50, 50] to [(X/640, Y/480, -Z/50, 1)], which lies in the clip cube; the
    ends of the ranges go to the faces, with [X = 640] to [1], [Y = 480] to
    [1] and [Z = 50] to [-1]. *)
Theorem projection_maps_to_clip_cube (X Y Z : Q) :
  (-640 <= X <= 640)%Q → (-480 <= Y <= 480)%Q → (-50 <= Z <= 50)%Q →
  (∀ h : gmap loc (object (V:=option Q)), ∃ this h',
     GLWrapper_new h = Ret this h' ∧ projection_of this h' = Some [matProj] ∧
     ∀ l matScl matRot matTrs vecCol,
       keeps_projection (V:=option Q) this (GLWrapper_clear l) ∧
       keeps_projection (V:=option Q) this (GLWrapper_draw l matScl matRot matTrs vecCol) ∧
       keeps_projection (V:=option Q) this (GLWrapper_flush l)) ∧
  (∀ i j, i < 4 → j < 4 →
     cells_at (matProj (V:=option Q)) i j
     = if decide (i = j) then [Some (2 # 1280); Some (2 # 960); Some (-2 # 100); Some 1]%Q.[i]
       else Some 0%Q) ∧
  ∃ x y z w,
    mat4_vec4 matProj [Some X; Some Y; Some Z; Some 1%Q] = [Some x; Some y; Some z; Some w] ∧
    (x == X / 640 ∧ y == Y / 480 ∧ z == - Z / 50 ∧ w == 1)%Q ∧
    (-1 <= x <= 1 ∧ -1 <= y <= 1 ∧ -1 <= z <= 1)%Q ∧
    ((X == 640 → x == 1) ∧ (X == -640 → x == -1))%Q ∧
    ((Y == 480 → y == 1) ∧ (Y == -480 → y == -1))%Q ∧
    ((Z == 50 → z == -1) ∧ (Z == -50 → z == 1))%Q.
Proof.
  intros HX HY HZ. split; [|split].
  - intros h. destruct (GLWrapper_new_projection h) as (this & h' & Hnew & _ & Hproj).
    exists this, h'. split; [done|]. split; [done|].
    intros. apply GLWrapper_methods_keep_projection.
  - intros i j Hi Hj.
    destruct i as [|[|[|[|]]]]; try lia; destruct j as [|[|[|[|]]]]; try lia; reflexivity.
  - rewrite matProj_Q. eexists _, _, _, _. split; [reflexivity|].
    change (inject_Z 0) with 0%Q. unfold Qdiv.
    change (/ 640)%Q with (1 # 640)%Q. change (/ 480)%Q with (1 # 480)%Q.
    change (/ 50)%Q with (1 # 50)%Q.
    repeat split; first [lra | intros ?; lra].
Qed.

(** ** Exact arithmetic *)

(** Over the reals the accumulated sum is the plain sum of the four
    products. *)
Lemma sum4_real (f : nat → R) :
  sum4 (λ k, Some (f k)) = Some (f 0%nat + f 1%nat + f 2%nat + f 3%nat)%R.
Proof. unfold sum4. simpl. f_equal. lra. Qed.

Lemma product_entry_real (a b : nat → nat → R) (A B : list (option R)) i j :
  (∀ k, k < 4 → cells_at A i k = Some (a i k)) →
  (∀ k, k < 4 → cells_at B k j = Some (b k j)) →
  product_entry A B i j
  = Some (a i 0%nat * b 0%nat j + a i 1%nat * b 1%nat j
          + a i 2%nat * b 2%nat j + a i 3%nat * b 3%nat j)%R.
Proof.
  intros HA HB. unfold product_entry, sum4.
  rewrite !HA, !HB by lia. simpl. f_equal. lra.
Qed.

(** Over the reals the rotation constructors build the standard rotation by
    the opposite angle. *)
Lemma rotators_opposite_angle (r : R) i j :
  i < 4 → j < 4 →
  cells_at (rotatorX_raw (Some r)) i j = standard_rotationX (Some (- r)%R) i j ∧
  cells_at (rotatorY_raw (Some r)) i j = standard_rotationY (Some (- r)%R) i j ∧
  cells_at (rotatorZ_raw (Some r)) i j = standard_rotationZ (Some (- r)%R) i j.
Proof.
  intros Hi Hj.
  assert (Math_cos (Some (- r)%R) = Math_cos (Some r)) as Hcos
    by (simpl; by rewrite cos_neg).
  assert (Math_sin (Some (- r)%R) = (- Math_sin (Some r))%js) as Hsin
    by (simpl; by rewrite sin_neg).
  assert ((- Math_sin (Some (- r)%R))%js = Math_sin (Some r)) as Hsin'
    by (simpl; by rewrite sin_neg, Ropp_involutive).
  destruct i as [|[|[|[|]]]]; try lia; destruct j as [|[|[|[|]]]]; try lia;
    repeat split;
    unfold standard_rotationX, standard_rotationY, standard_rotationZ;
    rewrite ?Hcos, ?Hsin', ?Hsin; reflexivity.
Qed.

(** ** Evaluation on concrete inputs, over the rationals *)

Example translator_times_scaler :
  returned ((t ← Matrix_translator (Some 1%Q) (Some 2%Q) (Some 3%Q);
             k ← Matrix_scaler (Some 2%Q) (Some 3%Q) (Some 4%Q);
             p ← Matrix_mul t k;
             Matrix_get p) ∅)
  = Some [Some 2%Q; Some 0%Q; Some 0%Q; Some 0%Q;
          Some 0%Q; Some 3%Q; Some 0%Q; Some 0%Q;
          Some 0%Q; Some 0%Q; Some 4%Q; Some 0%Q;
          Some 1%Q; Some 2%Q; Some 3%Q; Some 1%Q].
Proof. vm_compute. reflexivity. Qed.

Example translation_read_by_row_and_column :
  returned ((t ← Matrix_translator (Some 1%Q) (Some 2%Q) (Some 3%Q);
             x ← Matrix_at t 0 3; y ← Matrix_at t 1 3; z ← Matrix_at t 2 3;
             below ← Matrix_at t 3 0;
             mret [x; y; z; below]) ∅)
  = Some [Some 1%Q; Some 2%Q; Some 3%Q; Some 0%Q].
Proof. vm_compute. reflexivity. Qed.

Example setAt_out_of_range_extends :
  arr_set [Some 1%Q; Some 2%Q] 4 (Some 9%Q)
  = [Some 1%Q; Some 2%Q; None; None; Some 9%Q].
Proof. reflexivity. Qed.

Example short_vector_throws :
  Vector_new (Some [Some 1%Q; Some 2%Q; Some 3%Q]) ∅
  = Throw (Error "Vector(): the length of `raw` parameter must be no fewer than 4: "
             [Some 1%Q; Some 2%Q; Some 3%Q]) ∅.
Proof. reflexivity. Qed.

Example long_vector_keeps_four :
  returned ((u ← Vector_new (Some ((λ z, Some (inject_Z z)) <$> [5; 6; 7; 8; 9]%Z));
             Vector_get u) ∅)
  = Some [Some 5%Q; Some 6%Q; Some 7%Q; Some 8%Q].
Proof. vm_compute. reflexivity. Qed.

Example registry_scenario :
  returned ((manager ← ComponentManager_new;
             s1 ← Sprite_new (Some [Some 0%Q; Some 0%Q; Some 40%Q]) None
                    (Some [Some 100%Q; Some 100%Q])
                    (Some [Some 1%Q; Some 0%Q; Some 0%Q; Some 1%Q]);
             ComponentManager_add manager s1;;
             s2 ← Sprite_new None None None None;
             ComponentManager_add manager s2;;
             Sprite_disable s1;;
             sprites ← ComponentManager_get manager "Sprite";
             others ← ComponentManager_get manager "Timer";
             flag ← Sprite_isEnabled s1;
             mret (sprites, others, flag)) ∅)
  = Some ([1; 2], [], false).
Proof. vm_compute. reflexivity. Qed.

Example subclass_instances_are_returned :
  returned (ComponentManager_get 0 "Sprite"
              (<[0 := OComponentManager [1; 2; 3]]> (sample_registry false)))
  = Some [1; 3].
Proof. vm_compute. reflexivity. Qed.

Example projection_of_a_corner :
  mat4_vec4 matProj [Some (-640)%Q; Some 480%Q; Some 50%Q; Some 1%Q]
  = [Some (-1280 # 1280)%Q; Some (960 # 960)%Q; Some (-100 # 100)%Q; Some 1%Q].
Proof. vm_compute. reflexivity. Qed.

(** * The theorems at concrete inputs *)

Lemma Matrix_at_setAt_row_column_witness :
  ∃ this h1,
    Matrix_new (Some sample_raw) ∅ = Ret this h1 ∧
    Matrix_at this 1 2 h1 = Ret sample_raw.[4 * 2 + 1] h1 ∧
    ∀ h2 m, h2 !! this = Some (OMatrix m) →
      ∃ h3 before,
        Matrix_at this 0 3 h2 = Ret before h2 ∧
        Matrix_setAt this 1 2 (Some 7%Q) h2 = Ret () h3 ∧
        Matrix_at this 1 2 h3 = Ret (Some 7%Q) h3 ∧
        Matrix_at this 0 3 h3 = Ret before h3.
Proof.
  apply (Matrix_at_setAt_row_column sample_raw ∅ 1 2 (Some 7%Q) 0 3);
    [vm_compute; lia | lia | lia | lia | lia | discriminate].
Defined.

Lemma Matrix_mul_product_witness :
  ∃ result h',
    Matrix_mul 0 1 sample_matrices = Ret result h' ∧
    sample_matrices !! result = None ∧
    Matrix_at result 2 1 h'
      = Ret (sum4 (λ k, cells_at sample_raw 2 k
                        * cells_at (scaler_raw (Some 2%Q) (Some 3%Q) (Some 1%Q)) k 1)%js) h' ∧
    (∀ k, Matrix_at 0 2 k sample_matrices = Ret (cells_at sample_raw 2 k) sample_matrices ∧
          Matrix_at 1 k 1 sample_matrices
          = Ret (cells_at (scaler_raw (Some 2%Q) (Some 3%Q) (Some 1%Q)) k 1) sample_matrices) ∧
    h' !! 0 = Some (OMatrix sample_raw) ∧
    h' !! 1 = Some (OMatrix (scaler_raw (Some 2%Q) (Some 3%Q) (Some 1%Q))) ∧
    ∀ l o, sample_matrices !! l = Some o → h' !! l = Some o.
Proof.
  apply (Matrix_mul_product sample_matrices 0 1); [reflexivity | reflexivity | lia | lia].
Defined.

Lemma Sprite_draw_forwards_witness :
  ∃ matScl matRot matTrs vecCol h',
    Sprite_draw (GLWrapper_draw 1) 0 sample_scene
      = GLWrapper_draw 1 matScl matRot matTrs vecCol h' ∧
    h' !! matScl = Some (OMatrix (scaler_raw (Some 100%R) (Some 100%R) (num 1))) ∧
    h' !! matRot = Some (OMatrix
      (mul_cells (rotatorX_raw (Some 0%R))
         (mul_cells (rotatorY_raw (Some 0%R)) (rotatorZ_raw quarter_turn)))) ∧
    h' !! matTrs = Some (OMatrix (translator_raw (Some 0%R) (Some 0%R) (Some 40%R))) ∧
    h' !! vecCol = Some (OVector [Some 1%R; Some 0%R; Some 0%R; Some 1%R]) ∧
    sample_scene !! matScl = None ∧ sample_scene !! matRot = None ∧
    sample_scene !! matTrs = None ∧ sample_scene !! vecCol = None ∧
    sample_scene ⊆ h'.
Proof.
  apply (Sprite_draw_forwards (GLWrapper_draw 1) sample_scene 0 ["Sprite"] true).
  reflexivity.
Defined.

Lemma ComponentManager_get_instances_witness :
  ∃ h',
    for_of [3; 1] (ComponentManager_add 0) (sample_registry true) = Ret () h' ∧
    h' !! 0 = Some (OComponentManager ([1; 2] ++ [3; 1])) ∧
    (∀ l, l ≠ 0 → h' !! l = sample_registry true !! l) ∧
    ComponentManager_get 0 "Sprite" h'
      = Ret (filter (λ n, is_instance h' "Sprite" n) ([1; 2] ++ [3; 1])) h' ∧
    (Forall (λ n, ¬ is_instance h' "Sprite" n) ([1; 2] ++ [3; 1]) →
     ComponentManager_get 0 "Sprite" h' = Ret [] h').
Proof.
  apply (ComponentManager_get_instances (sample_registry true) 0 [1; 2] [3; 1] "Sprite");
    [reflexivity
    | repeat first [apply Forall_nil_2 | apply Forall_cons_2; [eexists; reflexivity|]]].
Defined.

Lemma projection_maps_to_clip_cube_witness :
  ∃ x y z w,
    mat4_vec4 matProj [Some 640%Q; Some 480%Q; Some 50%Q; Some 1%Q]
      = [Some x; Some y; Some z; Some w] ∧
    (x == 1 ∧ y == 1 ∧ z == -1 ∧ w == 1)%Q.
Proof.
  destruct (projection_maps_to_clip_cube 640 480 50) as (_ & _ & x & y & z & w & Hmap & _ & _ & HX & HY & HZ);
    [split; discriminate | split; discriminate | split; discriminate |].
  exists x, y, z, w. split; [exact Hmap|].
  split; [apply HX; reflexivity|]. split; [apply HY; reflexivity|].
  split; [apply HZ; reflexivity|].
  injection Hmap as _ _ _ <-. reflexivity.
Defined.

Lemma ComponentManager_get_ignores_enabled_witness :
  returned (ComponentManager_get 0 "Sprite" (sample_registry true))
    = returned (ComponentManager_get 0 "Sprite" (sample_registry false)) ∧
  ∃ h3 res,
    Sprite_disable 1 (sample_registry true) = Ret () h3 ∧
    Sprite_isEnabled 1 h3 = Ret false h3 ∧
    ComponentManager_get 0 "Sprite" h3 = Ret res h3 ∧
    1 ∈ res ∧
    ComponentManager_get 0 "Sprite" (sample_registry true) = Ret res (sample_registry true).
Proof.
  destruct (ComponentManager_get_ignores_enabled
    (sample_registry true) (sample_registry false) 0 "Sprite") as [Hsame Hdisabled];
    [reflexivity|].
  split; [exact Hsame|].
  apply (Hdisabled [1; 2] 1 ["Sprite"] (sample_entity true));
    [reflexivity
    | repeat first [apply Forall_nil_2 | apply Forall_cons_2; [eexists; reflexivity|]]
    | constructor | reflexivity | constructor].
Defined.

Lemma Sprite_enable_disable_frame_witness :
  ∃ position rotation scale color,
    Sprite_getPosition 1 (sample_registry false) = Ret position (sample_registry false) ∧
    Sprite_getRotation 1 (sample_registry false) = Ret rotation (sample_registry false) ∧
    Sprite_getScale 1 (sample_registry false) = Ret scale (sample_registry false) ∧
    Sprite_getColor 1 (sample_registry false) = Ret color (sample_registry false) ∧
    ∀ (b : bool), ∃ h',
      (if b then Sprite_enable 1 (sample_registry false)
       else Sprite_disable 1 (sample_registry false)) = Ret () h' ∧
      Sprite_isEnabled 1 h' = Ret b h' ∧
      Sprite_getPosition 1 h' = Ret position h' ∧
      Sprite_getRotation 1 h' = Ret rotation h' ∧
      Sprite_getScale 1 h' = Ret scale h' ∧
      Sprite_getColor 1 h' = Ret color h' ∧
      ∀ l, l ≠ 1 → h' !! l = sample_registry false !! l.
Proof.
  apply (Sprite_enable_disable_frame (sample_registry false) 1 ["Sprite"] (sample_entity false)).
  reflexivity.
Defined.

(** * Further properties of the sources *)

(** ** Vector *)

Section VectorProperties.
Context {V : Type} `{JSNum V}.
Implicit Types (h : gmap loc (object (V:=V))) (this u : loc).

Lemma Vector_component_run h this (v : list V) :
  h !! this = Some (OVector v) →
  Vector_x this h = Ret v.[0] h ∧ Vector_y this h = Ret v.[1] h ∧
  Vector_z this h = Ret v.[2] h ∧ Vector_w this h = Ret v.[3] h.
Proof.
  intros Hv. unfold Vector_x, Vector_y, Vector_z, Vector_w.
  by rewrite !(bind_Ret _ _ _ _ _ (get_v_run _ _ _ Hv)).
Qed.

Lemma Vector_dot_run h this u (a b : list V) :
  h !! this = Some (OVector a) → h !! u = Some (OVector b) →
  Vector_dot this u h
  = Ret (a.[0] * b.[0] + a.[1] * b.[1] + a.[2] * b.[2] + a.[3] * b.[3])%js h.
Proof.
  intros Ha Hb.
  destruct (Vector_component_run _ _ _ Ha) as (Hx1 & Hy1 & Hz1 & Hw1).
  destruct (Vector_component_run _ _ _ Hb) as (Hx2 & Hy2 & Hz2 & Hw2).
  unfold Vector_dot.
  eapply bind_Ret_eq; [exact Hx1|]. eapply bind_Ret_eq; [exact Hx2|].
  eapply bind_Ret_eq; [exact Hy1|]. eapply bind_Ret_eq; [exact Hy2|].
  eapply bind_Ret_eq; [exact Hz1|]. eapply bind_Ret_eq; [exact Hz2|].
  eapply bind_Ret_eq; [exact Hw1|]. eapply bind_Ret_eq; [exact Hw2|].
  reflexivity.
Qed.

Lemma Vector_mul_run h this u (a b : list V) :
  h !! this = Some (OVector a) → h !! u = Some (OVector b) →
  Vector_mul this u h
  = Ret (fresh (dom h))
      (<[fresh (dom h) :=
          OVector [a.[0] * b.[0]; a.[1] * b.[1]; a.[2] * b.[2]; a.[3] * b.[3]]%js]> h).
Proof.
  intros Ha Hb.
  destruct (Vector_component_run _ _ _ Ha) as (Hx1 & Hy1 & Hz1 & Hw1).
  destruct (Vector_component_run _ _ _ Hb) as (Hx2 & Hy2 & Hz2 & Hw2).
  unfold Vector_mul.
  eapply bind_Ret_eq; [exact Hx1|]. eapply bind_Ret_eq; [exact Hx2|].
  eapply bind_Ret_eq; [exact Hy1|]. eapply bind_Ret_eq; [exact Hy2|].
  eapply bind_Ret_eq; [exact Hz1|]. eapply bind_Ret_eq; [exact Hz2|].
  eapply bind_Ret_eq; [exact Hw1|]. eapply bind_Ret_eq; [exact Hw2|].
  reflexivity.
Qed.

(** X1. [a.mul(b)] never throws on two vectors: it returns a vector at a
    reference that was not in use, holding the four component-wise products,
    and leaves [a], [b] and every other object unchanged; [a.dot(b)] returns
    the sum of the same four products, added from left to right, and changes
    nothing. *)
Theorem Vector_mul_dot_componentwise h this u (a b : list V) :
  h !! this = Some (OVector a) → h !! u = Some (OVector b) →
  ∃ product h',
    Vector_mul this u h = Ret product h' ∧
    h !! product = None ∧
    (∀ k, k < 4 → Vector_at product k h' = Ret (a.[k] * b.[k])%js h') ∧
    (∀ l o, h !! l = Some o → h' !! l = Some o) ∧
    Vector_dot this u h
    = Ret (a.[0] * b.[0] + a.[1] * b.[1] + a.[2] * b.[2] + a.[3] * b.[3])%js h.
Proof.
  intros Ha Hb. pose proof (fresh_unused h) as Hfresh.
  eexists _, _. split; [by apply Vector_mul_run|]. split; [done|].
  split; [|split; [|by apply Vector_dot_run]].
  - intros k Hk. unfold Vector_at.
    rewrite (bind_Ret _ _ _ _ _ (get_v_run _ _ _ (lookup_insert_eq _ _ _))).
    destruct k as [|[|[|[|]]]]; try lia; reflexivity.
  - intros l o Hl. rewrite lookup_insert_ne; [done|congruence].
Qed.

Lemma Vector_setAt_run h this (v : list V) i val :
  h !! this = Some (OVector v) →
  Vector_setAt this i val h = Ret () (<[this := OVector (arr_set v i val)]> h).
Proof. intros Hv. unfold Vector_setAt. by rewrite (bind_Ret _ _ _ _ _ (get_v_run _ _ _ Hv)). Qed.

Lemma arr_set_length (a : list V) k x :
  length (arr_set a k x) = length a `max` S k.
Proof.
  unfold arr_set. case_decide.
  - rewrite length_insert. lia.
  - rewrite !length_app, length_replicate. simpl. lia.
Qed.


End VectorProperties.

(** ** Matrix *)

Section MatrixProperties.
Context {V : Type} `{JSNum V}.
Implicit Types (h : gmap loc (object (V:=V))) (this : loc).

Lemma Matrix_get_run h this (m : list V) :
  h !! this = Some (OMatrix m) → Matrix_get this h = Ret (Float32Array m) h.
Proof. intros Hm. unfold Matrix_get. by rewrite (bind_Ret _ _ _ _ _ (get_m_run _ _ _ Hm)). Qed.

Lemma Vector_get_run h this (v : list V) :
  h !! this = Some (OVector v) → Vector_get this h = Ret (Float32Array v) h.
Proof. intros Hv. unfold Vector_get. by rewrite (bind_Ret _ _ _ _ _ (get_v_run _ _ _ Hv)). Qed.


(** X4. [clone()] returns a matrix at a reference that was not in use, with
    the same sixteen entries; the two are independent: [setAt] on the clone
    leaves the original as it was, and [setAt] on the original leaves the
    clone as it was. *)
Theorem Matrix_clone_independent h this (m : list V) i j val :
  h !! this = Some (OMatrix m) → length m = 16 →
  ∃ copy h1 h2 h3,
    Matrix_clone this h = Ret copy h1 ∧
    h !! copy = None ∧
    h1 !! copy = Some (OMatrix m) ∧ h1 !! this = Some (OMatrix m) ∧
    Matrix_setAt copy i j val h1 = Ret () h2 ∧
    h2 !! this = Some (OMatrix m) ∧
    Matrix_setAt this i j val h1 = Ret () h3 ∧
    h3 !! copy = Some (OMatrix m).
Proof.
  intros Hm Hlen. pose proof (fresh_unused h) as Hfresh.
  assert (fresh (dom h) ≠ this) as Hne by congruence.
  set (copy := fresh (dom h)) in *.
  set (h1 := <[copy := OMatrix m]> h).
  assert (h1 !! copy = Some (OMatrix m)) as Hc by apply lookup_insert_eq.
  assert (h1 !! this = Some (OMatrix m)) as Hm1 by (unfold h1; by rewrite lookup_insert_ne).
  exists copy, h1, (<[copy := OMatrix (arr_set m (4 * j + i) val)]> h1),
    (<[this := OMatrix (arr_set m (4 * j + i) val)]> h1).
  split.
  { unfold Matrix_clone. rewrite (bind_Ret _ _ _ _ _ (get_m_run _ _ _ Hm)).
    by apply Matrix_new_16. }
  split; [done|]. split; [done|]. split; [done|].
  split; [by apply Matrix_setAt_run|].
  split; [by rewrite lookup_insert_ne|].
  split; [by apply Matrix_setAt_run|].
  by rewrite lookup_insert_ne.
Qed.

End MatrixProperties.

(** ** Vector and Matrix over the reals *)

Lemma mul_cells_16 {V} `{JSNum V} (A B : list V) :
  mul_cells A B =
  [product_entry A B 0 0; product_entry A B 1 0; product_entry A B 2 0; product_entry A B 3 0;
   product_entry A B 0 1; product_entry A B 1 1; product_entry A B 2 1; product_entry A B 3 1;
   product_entry A B 0 2; product_entry A B 1 2; product_entry A B 2 2; product_entry A B 3 2;
   product_entry A B 0 3; product_entry A B 1 3; product_entry A B 2 3; product_entry A B 3 3].
Proof. reflexivity. Qed.

Lemma Float32Array_real (a : list (option R)) : Float32Array a = a.
Proof. unfold Float32Array. simpl. apply list_fmap_id. Qed.

Lemma sixteen_cells {A} (xs : list A) :
  length xs = 16 →
  ∃ x0 x1 x2 x3 x4 x5 x6 x7 x8 x9 x10 x11 x12 x13 x14 x15,
    xs = [x0; x1; x2; x3; x4; x5; x6; x7; x8; x9; x10; x11; x12; x13; x14; x15].
Proof.
  intros Hlen. do 16 (destruct xs as [|? xs]; [discriminate Hlen|]).
  destruct xs; [|discriminate Hlen]. by eexists _, _, _, _, _, _, _, _, _, _, _, _, _, _, _, _.
Qed.

(** Reduces an equation between arrays of real cells to equations between
    reals, and solves those by ring normalisation. *)
Ltac real_cells :=
  unfold mat4_vec4; unfold product_entry; unfold sum4, cells_at;
  cbn [arr_get lookup list_lookup default from_option Nat.mul Nat.add Datatypes.id
       Math_cos Math_sin R_JSMath R_JSNum js_mul js_add js_neg num lift2
       fmap option_fmap option_map list_fmap seq];
  repeat (apply f_equal2; [f_equal; try ring|]); try reflexivity.

Lemma identity_cells_neutral (M : list R) :
  length M = 16 →
  mul_cells identity_raw (Some <$> M) = Some <$> M ∧
  mul_cells (Some <$> M) identity_raw = Some <$> M.
Proof.
  intros Hlen.
  destruct (sixteen_cells M Hlen)
    as (x0&x1&x2&x3&x4&x5&x6&x7&x8&x9&x10&x11&x12&x13&x14&x15&->).
  split; rewrite mul_cells_16; unfold identity_raw; real_cells.
Qed.

Lemma mul_cells_assoc (A B C : list R) :
  length A = 16 → length B = 16 → length C = 16 →
  mul_cells (mul_cells (Some <$> A) (Some <$> B)) (Some <$> C)
  = mul_cells (Some <$> A) (mul_cells (Some <$> B) (Some <$> C)).
Proof.
  intros HA HB HC.
  destruct (sixteen_cells A HA)
    as (a0&a1&a2&a3&a4&a5&a6&a7&a8&a9&a10&a11&a12&a13&a14&a15&->).
  destruct (sixteen_cells B HB)
    as (b0&b1&b2&b3&b4&b5&b6&b7&b8&b9&b10&b11&b12&b13&b14&b15&->).
  destruct (sixteen_cells C HC)
    as (c0&c1&c2&c3&c4&c5&c6&c7&c8&c9&c10&c11&c12&c13&c14&c15&->).
  rewrite !mul_cells_16. real_cells.
Qed.

Lemma rotator_cells_add (a b : R) :
  mul_cells (rotatorX_raw (Some a)) (rotatorX_raw (Some b)) = rotatorX_raw (Some (a + b)%R) ∧
  mul_cells (rotatorY_raw (Some a)) (rotatorY_raw (Some b)) = rotatorY_raw (Some (a + b)%R) ∧
  mul_cells (rotatorZ_raw (Some a)) (rotatorZ_raw (Some b)) = rotatorZ_raw (Some (a + b)%R).
Proof.
  repeat split; rewrite mul_cells_16;
    unfold rotatorX_raw, rotatorY_raw, rotatorZ_raw;
    cbn [Math_cos Math_sin R_JSMath fmap option_fmap option_map];
    rewrite cos_plus, sin_plus; real_cells.
Qed.

Lemma lift2_comm {A} (f : A → A → A) (x y : option A) :
  (∀ a b, f a b = f b a) → lift2 f x y = lift2 f y x.
Proof. intros Hf. destruct x, y; simpl; by rewrite ?(Hf a). Qed.

(** X5. Over the reals, for two vectors [a] and [b]: [a.dot(b)] and
    [b.dot(a)] return the same number, and [a.mul(b)] and [b.mul(a)] have the
    same outcome, a new vector with the same four components. *)
Theorem Vector_dot_mul_symmetric (h : gmap loc (object (V:=option R))) this u a b :
  h !! this = Some (OVector a) → h !! u = Some (OVector b) →
  Vector_dot this u h = Vector_dot u this h ∧
  Vector_mul this u h = Vector_mul u this h ∧
  is_Some (returned (Vector_dot this u h)) ∧ is_Some (returned (Vector_mul this u h)).
Proof.
  intros Ha Hb.
  rewrite (Vector_dot_run _ _ _ _ _ Ha Hb), (Vector_dot_run _ _ _ _ _ Hb Ha).
  rewrite (Vector_mul_run _ _ _ _ _ Ha Hb), (Vector_mul_run _ _ _ _ _ Hb Ha).
  assert (∀ x y : option R, (x * y)%js = (y * x)%js) as Hcomm
    by (intros; apply lift2_comm, Rmult_comm).
  split; [by rewrite !(Hcomm a.[_])|].
  split; [by rewrite !(Hcomm a.[_])|].
  split; by eexists.
Qed.



(** X8. Over the reals, on a matrix [M] whose sixteen entries are numbers,
    [identity().mul(M)] and [M.mul(identity())] return matrices with the
    entries of [M]. *)
Theorem Matrix_identity_neutral (h : gmap loc (object (V:=option R))) this (M : list R) :
  h !! this = Some (OMatrix (Some <$> M)) → length M = 16 →
  ∃ e left right h1 h2 h3,
    Matrix_identity h = Ret e h1 ∧
    Matrix_mul e this h1 = Ret left h2 ∧
    Matrix_mul this e h2 = Ret right h3 ∧
    h3 !! left = Some (OMatrix (Some <$> M)) ∧
    h3 !! right = Some (OMatrix (Some <$> M)) ∧
    h3 !! this = Some (OMatrix (Some <$> M)).
Proof.
  intros Hm Hlen. destruct (identity_cells_neutral M Hlen) as [Hl Hr].
  destruct (Matrix_new_16_ext identity_raw h eq_refl) as (e & h1 & He & _ & Hel & Hsub1).
  pose proof (lookup_weaken _ _ _ _ Hm Hsub1) as Hm1.
  destruct (Matrix_mul_ext h1 e this _ _ Hel Hm1) as (l & h2 & Hml & _ & Hll & Hsub2).
  destruct (Matrix_mul_ext h2 this e _ _ (lookup_weaken _ _ _ _ Hm1 Hsub2)
              (lookup_weaken _ _ _ _ Hel Hsub2)) as (r & h3 & Hmr & _ & Hrl & Hsub3).
  exists e, l, r, h1, h2, h3.
  split; [exact He|]. split; [exact Hml|]. split; [exact Hmr|].
  rewrite Hl in Hll. rewrite Hr in Hrl.
  split; [exact (lookup_weaken _ _ _ _ Hll Hsub3)|].
  split; [exact Hrl|].
  exact (lookup_weaken _ _ _ _ (lookup_weaken _ _ _ _ Hm1 Hsub2) Hsub3).
Qed.


(** ** The renderer and the frame *)

Section FrameProperties.
Context {V : Type} `{JSMath V}.
Implicit Types (h : gmap loc (object (V:=V))) (this gl n : loc) (s : Sprite (V:=V)).

Lemma gl_issue_run h this (log : list (gl_call (V:=V))) c :
  h !! this = Some (OGLWrapper log) →
  gl_issue this c h = Ret () (<[this := OGLWrapper (log ++ [c])]> h).
Proof.
  intros Hgl. unfold gl_issue, get_gl.
  by rewrite !bind_run, (load_run _ _ _ Hgl).
Qed.

Lemma GLWrapper_draw_run h this matScl matRot matTrs vecCol
    (log : list (gl_call (V:=V))) (S R T C : list V) :
  h !! this = Some (OGLWrapper log) →
  h !! matScl = Some (OMatrix S) → h !! matRot = Some (OMatrix R) →
  h !! matTrs = Some (OMatrix T) → h !! vecCol = Some (OVector C) →
  GLWrapper_draw this matScl matRot matTrs vecCol h
  = Ret () (<[this := OGLWrapper (log ++ [
      uniformMatrix4fv uniScl false (Float32Array S);
      uniformMatrix4fv uniRot false (Float32Array R);
      uniformMatrix4fv uniTrs false (Float32Array T);
      uniform4fv uniCol (Float32Array C);
      drawElements 6])]> h).
Proof.
  intros Hgl HS HR HT HC.
  assert (this ≠ matScl ∧ this ≠ matRot ∧ this ≠ matTrs ∧ this ≠ vecCol)
    as (? & ? & ? & ?) by (repeat split; congruence).
  unfold GLWrapper_draw.
  eapply bind_Ret_eq; [by apply Matrix_get_run|].
  eapply bind_Ret_eq; [by apply gl_issue_run|].
  eapply bind_Ret_eq; [apply Matrix_get_run; by rewrite lookup_insert_ne|].
  eapply bind_Ret_eq; [apply gl_issue_run, lookup_insert_eq|].
  eapply bind_Ret_eq; [apply Matrix_get_run; by rewrite !lookup_insert_ne|].
  eapply bind_Ret_eq; [apply gl_issue_run, lookup_insert_eq|].
  eapply bind_Ret_eq; [apply Vector_get_run; by rewrite !lookup_insert_ne|].
  eapply bind_Ret_eq; [apply gl_issue_run, lookup_insert_eq|].
  erewrite gl_issue_run by apply lookup_insert_eq.
  rewrite !insert_insert_eq. by rewrite <- !app_assoc.
Qed.

(** X10. [gl.draw(matScl, matRot, matTrs, vecCol)] issues exactly five
    calls, in this order: the uploads of the three matrices to [uniScl],
    [uniRot] and [uniTrs] without transposition, the upload of the vector to
    [uniCol], then one indexed draw of 6 indices; the data are copies of the
    arguments' arrays, and nothing but the log of the context changes. *)
Theorem GLWrapper_draw_uploads h this matScl matRot matTrs vecCol
    (log : list (gl_call (V:=V))) (S R T C : list V) :
  h !! this = Some (OGLWrapper log) →
  h !! matScl = Some (OMatrix S) → h !! matRot = Some (OMatrix R) →
  h !! matTrs = Some (OMatrix T) → h !! vecCol = Some (OVector C) →
  GLWrapper_draw this matScl matRot matTrs vecCol h
  = Ret () (<[this := OGLWrapper (log ++ [
      uniformMatrix4fv uniScl false (Float32Array S);
      uniformMatrix4fv uniRot false (Float32Array R);
      uniformMatrix4fv uniTrs false (Float32Array T);
      uniform4fv uniCol (Float32Array C);
      drawElements 6])]> h).
Proof. apply GLWrapper_draw_run. Qed.

(** [draw] on any sprite: the four arguments it builds. *)
Lemma Sprite_draw_builds (gl_draw : loc → loc → loc → loc → M unit) h this proto s :
  h !! this = Some (OSprite proto s) →
  ∃ matScl matRot matTrs vecCol h',
    Sprite_draw gl_draw this h = gl_draw matScl matRot matTrs vecCol h' ∧
    h' !! matScl = Some (OMatrix (scaler_raw (scl s).[0] (scl s).[1] (num 1))) ∧
    h' !! matRot = Some (OMatrix
      (mul_cells (rotatorX_raw (rot s).[0])
         (mul_cells (rotatorY_raw (rot s).[1]) (rotatorZ_raw (rot s).[2])))) ∧
    h' !! matTrs = Some (OMatrix (translator_raw (pos s).[0] (pos s).[1] (pos s).[2])) ∧
    h' !! vecCol = Some (OVector [(col s).[0]; (col s).[1]; (col s).[2]; (col s).[3]]) ∧
    h ⊆ h'.
Proof.
  intros Hs.
  destruct (Matrix_new_16_ext (scaler_raw (scl s).[0] (scl s).[1] (num 1)) h eq_refl)
    as (matScl & h1 & Hr1 & _ & Hscl & Hsub1).
  destruct (Matrix_new_16_ext (rotatorX_raw (rot s).[0]) h1 eq_refl)
    as (mx & h2 & Hr2 & _ & Hx & Hsub2).
  destruct (Matrix_new_16_ext (rotatorY_raw (rot s).[1]) h2 eq_refl)
    as (my & h3 & Hr3 & _ & Hy & Hsub3).
  destruct (Matrix_new_16_ext (rotatorZ_raw (rot s).[2]) h3 eq_refl)
    as (mz & h4 & Hr4 & _ & Hz & Hsub4).
  destruct (Matrix_mul_ext h4 my mz _ _ (lookup_weaken _ _ _ _ Hy Hsub4) Hz)
    as (myz & h5 & Hr5 & _ & Hyz & Hsub5).
  assert (h2 ⊆ h5) as Hsub25 by (etrans; [exact Hsub3|]; by etrans).
  destruct (Matrix_mul_ext h5 mx myz _ _ (lookup_weaken _ _ _ _ Hx Hsub25) Hyz)
    as (matRot & h6 & Hr6 & _ & Hrot & Hsub6).
  destruct (Matrix_new_16_ext (translator_raw (pos s).[0] (pos s).[1] (pos s).[2]) h6 eq_refl)
    as (matTrs & h7 & Hr7 & _ & Htrs & Hsub7).
  destruct (Vector_new_4_ext [(col s).[0]; (col s).[1]; (col s).[2]; (col s).[3]] h7 eq_refl)
    as (vecCol & h8 & Hr8 & _ & Hcol & Hsub8).
  assert (h ⊆ h2) as Hsub02 by (etrans; [exact Hsub1|exact Hsub2]).
  assert (h ⊆ h3) as Hsub03 by (etrans; [exact Hsub02|exact Hsub3]).
  assert (h ⊆ h6) as Hsub06.
  { etrans; [exact Hsub02|]. etrans; [exact Hsub25|exact Hsub6]. }
  assert (h ⊆ h7) as Hsub07 by (etrans; [exact Hsub06|exact Hsub7]).
  assert (h6 ⊆ h8) as Hsub68 by (etrans; [exact Hsub7|exact Hsub8]).
  assert (h1 ⊆ h8) as Hsub18.
  { etrans; [exact Hsub2|]. etrans; [exact Hsub25|]. etrans; [exact Hsub6|exact Hsub68]. }
  exists matScl, matRot, matTrs, vecCol, h8.
  split.
  { unfold Sprite_draw.
    do 2 (eapply bind_Ret_eq; [by eapply Sprite_field_run|]).
    eapply bind_Ret_eq; [exact Hr1|].
    eapply bind_Ret_eq;
      [eapply Sprite_field_run; exact (lookup_weaken _ _ _ _ Hs Hsub1)|].
    eapply bind_Ret_eq; [exact Hr2|].
    eapply bind_Ret_eq;
      [eapply Sprite_field_run; exact (lookup_weaken _ _ _ _ Hs Hsub02)|].
    eapply bind_Ret_eq; [exact Hr3|].
    eapply bind_Ret_eq;
      [eapply Sprite_field_run; exact (lookup_weaken _ _ _ _ Hs Hsub03)|].
    eapply bind_Ret_eq; [exact Hr4|].
    eapply bind_Ret_eq; [exact Hr5|].
    eapply bind_Ret_eq; [exact Hr6|].
    do 3 (eapply bind_Ret_eq;
      [eapply Sprite_field_run; exact (lookup_weaken _ _ _ _ Hs Hsub06)|]).
    eapply bind_Ret_eq; [exact Hr7|].
    do 4 (eapply bind_Ret_eq;
      [eapply Sprite_field_run; exact (lookup_weaken _ _ _ _ Hs Hsub07)|]).
    eapply bind_Ret_eq; [exact Hr8|].
    reflexivity. }
  split; [exact (lookup_weaken _ _ _ _ Hscl Hsub18)|].
  split; [exact (lookup_weaken _ _ _ _ Hrot Hsub68)|].
  split; [exact (lookup_weaken _ _ _ _ Htrs Hsub8)|].
  split; [exact Hcol|].
  etrans; [exact Hsub06|exact Hsub68].
Qed.

(** [sprite.draw(gl)] on a [GLWrapper]: the five calls for the sprite are
    appended to the log, and every other object that existed is unchanged. *)
Lemma Sprite_draw_GLWrapper h this gl proto s (log : list (gl_call (V:=V))) :
  h !! this = Some (OSprite proto s) → h !! gl = Some (OGLWrapper log) →
  ∃ h',
    Sprite_draw (GLWrapper_draw gl) this h = Ret () h' ∧
    h' !! gl = Some (OGLWrapper (log ++ sprite_calls s)) ∧
    ∀ l o, l ≠ gl → h !! l = Some o → h' !! l = Some o.
Proof.
  intros Hs Hgl.
  destruct (Sprite_draw_builds (GLWrapper_draw gl) h this proto s Hs)
    as (a1 & a2 & a3 & a4 & h1 & Hrun & H1 & H2 & H3 & H4 & Hsub).
  eexists. split.
  { rewrite Hrun. eapply GLWrapper_draw_run; try eassumption.
    exact (lookup_weaken _ _ _ _ Hgl Hsub). }
  split; [by rewrite lookup_insert_eq|].
  intros l o Hl Hlo. rewrite lookup_insert_ne by done.
  exact (lookup_weaken _ _ _ _ Hlo Hsub).
Qed.

Lemma draw_all h gl (log : list (gl_call (V:=V))) (sprites : list loc) :
  h !! gl = Some (OGLWrapper log) →
  Forall (λ n, ∃ proto s, h !! n = Some (OSprite proto s)) sprites →
  ∃ h',
    for_of sprites (λ n, Sprite_draw (GLWrapper_draw gl) n) h = Ret () h' ∧
    h' !! gl = Some (OGLWrapper (log ++ concat (calls_of h <$> sprites))) ∧
    ∀ l o, l ≠ gl → h !! l = Some o → h' !! l = Some o.
Proof.
  intros Hgl Hsprites. revert h log Hgl Hsprites.
  induction sprites as [|n sprites IH]; intros h log Hgl Hsprites.
  - exists h. split; [done|]. split; [|done]. simpl. by rewrite app_nil_r.
  - apply Forall_cons in Hsprites as [(proto & s & Hs) Hrest].
    destruct (Sprite_draw_GLWrapper h n gl proto s log Hs Hgl) as (h1 & Hrun & Hgl1 & Hkeep).
    assert (∀ l proto' s', h !! l = Some (OSprite proto' s') → l ≠ gl) as Hne
      by (intros l ? ? Hl ->; congruence).
    destruct (IH h1 (log ++ sprite_calls s) Hgl1) as (h2 & Hrun2 & Hgl2 & Hkeep2).
    { eapply Forall_impl; [exact Hrest|]. intros l (proto' & s' & Hl).
      exists proto', s'. apply Hkeep; [by eapply Hne|done]. }
    exists h2. split; [|split].
    + cbn [for_of]. by rewrite bind_run, Hrun.
    + rewrite Hgl2. do 2 f_equal. rewrite fmap_cons. simpl.
      rewrite <- app_assoc. f_equal.
      unfold calls_of at 2. rewrite Hs. f_equal. f_equal.
      apply Forall_fmap_ext_1. eapply Forall_impl; [exact Hrest|].
      intros l (proto' & s' & Hl). unfold calls_of.
      by rewrite Hl, (Hkeep l _ (Hne _ _ _ Hl) Hl).
    + intros l o Hl Hlo. apply Hkeep2; [done|]. by apply Hkeep.
Qed.

Lemma is_instance_gl_log h gl (log log' : list (gl_call (V:=V))) type n :
  h !! gl = Some (OGLWrapper log) →
  is_instance (<[gl := OGLWrapper log']> h) type n = is_instance h type n.
Proof.
  intros Hgl. unfold is_instance. destruct (decide (gl = n)) as [->|Hne].
  - by rewrite lookup_insert_eq, Hgl.
  - by rewrite lookup_insert_ne.
Qed.

(** X11. One run of [loop] on a renderer with log [log] and a registry
    holding [cs] appends to the log: one clear, then for each stored
    component that is a [Sprite], in insertion order and whatever its
    [enabled] flag, the five calls of its draw, then one flush.  The
    registry and every object other than the renderer that existed are
    unchanged. *)
Theorem loop_draws_every_sprite h gl comManager (log : list (gl_call (V:=V))) (cs : list loc) :
  h !! gl = Some (OGLWrapper log) →
  h !! comManager = Some (OComponentManager cs) →
  Forall (λ n, is_Some (h !! n)) cs →
  (∀ n, n ∈ cs → is_instance h "Sprite" n → ∃ proto s, h !! n = Some (OSprite proto s)) →
  ∃ h',
    loop gl comManager h = Ret () h' ∧
    h' !! gl = Some (OGLWrapper
      (log ++ [gl_clear]
           ++ concat (calls_of h <$> filter (λ n, is_instance h "Sprite" n) cs)
           ++ [gl_flush])) ∧
    h' !! comManager = Some (OComponentManager cs) ∧
    ∀ l o, l ≠ gl → h !! l = Some o → h' !! l = Some o.
Proof.
  intros Hgl Hm Hlive Hsprites.
  assert (gl ≠ comManager) as Hne by congruence.
  set (h0 := <[gl := OGLWrapper (log ++ [gl_clear])]> h).
  assert (h0 !! gl = Some (OGLWrapper (log ++ [gl_clear]))) as Hgl0 by apply lookup_insert_eq.
  assert (∀ l o, l ≠ gl → h !! l = Some o → h0 !! l = Some o) as Hkeep0
    by (intros l o Hl Hlo; unfold h0; by rewrite lookup_insert_ne).
  assert (filter (λ n, is_instance h0 "Sprite" n) cs
          = filter (λ n, is_instance h "Sprite" n) cs) as Hfilter.
  { apply list_filter_iff. intros n. unfold h0. by rewrite (is_instance_gl_log _ _ log). }
  assert (ComponentManager_get comManager "Sprite" h0
          = Ret (filter (λ n, is_instance h "Sprite" n) cs) h0) as Hget.
  { rewrite <- Hfilter. apply ComponentManager_get_run; [by apply Hkeep0|].
    eapply Forall_impl; [exact Hlive|]. intros n Hn. cbv beta in *. unfold h0.
    destruct (decide (gl = n)) as [->|Hgn].
    - rewrite lookup_insert_eq. by eexists.
    - by rewrite lookup_insert_ne. }
  assert (Forall (λ n, ∃ proto s, h !! n = Some (OSprite proto s))
            (filter (λ n, is_instance h "Sprite" n) cs)) as Hall.
  { apply Forall_forall. intros n [Hinst Hn]%list_elem_of_filter. by apply Hsprites. }
  assert (∀ l proto s, h !! l = Some (OSprite proto s) → l ≠ gl) as Hsg
    by (intros l ? ? Hl ->; congruence).
  destruct (draw_all h0 gl (log ++ [gl_clear])
              (filter (λ n, is_instance h "Sprite" n) cs) Hgl0)
    as (h1 & Hdraw & Hgl1 & Hkeep1).
  { eapply Forall_impl; [exact Hall|]. intros n (proto & s & Hn).
    exists proto, s. apply Hkeep0; [by eapply Hsg|done]. }
  assert (calls_of h0 <$> filter (λ n, is_instance h "Sprite" n) cs
          = calls_of h <$> filter (λ n, is_instance h "Sprite" n) cs) as Hcalls.
  { apply Forall_fmap_ext_1. eapply Forall_impl; [exact Hall|].
    intros n (proto & s & Hn). unfold calls_of.
    by rewrite Hn, (Hkeep0 n _ (Hsg _ _ _ Hn) Hn). }
  rewrite Hcalls in Hgl1.
  eexists. split.
  { unfold loop.
    eapply bind_Ret_eq; [by apply gl_issue_run|].
    eapply bind_Ret_eq; [exact Hget|].
    eapply bind_Ret_eq; [exact Hdraw|].
    by apply gl_issue_run. }
  split; [rewrite lookup_insert_eq; by rewrite <- !app_assoc|].
  split.
  - rewrite lookup_insert_ne by done. apply Hkeep1; [done|]. by apply Hkeep0.
  - intros l o Hl Hlo. rewrite lookup_insert_ne by done.
    apply Hkeep1; [done|]. by apply Hkeep0.
Qed.

Lemma Sprite_update_getters f h this proto s :
  h !! this = Some (OSprite proto s) →
  ∃ h',
    Sprite_update f this h = Ret () h' ∧
    Sprite_isEnabled this h' = Ret (enabled (f s)) h' ∧
    Sprite_getPosition this h' = Ret (pos (f s)) h' ∧
    Sprite_getRotation this h' = Ret (rot (f s)) h' ∧
    Sprite_getScale this h' = Ret (scl (f s)) h' ∧
    Sprite_getColor this h' = Ret (col (f s)) h' ∧
    h' = <[this := OSprite proto (f s)]> h.
Proof.
  intros Hs. eexists. split; [by apply Sprite_update_run|].
  unfold Sprite_getPosition, Sprite_getRotation, Sprite_getScale, Sprite_getColor,
    Sprite_isEnabled.
  repeat split; by erewrite Sprite_field_run by apply lookup_insert_eq.
Qed.

(** X12. [setPosition(p)] followed by [draw] hands the renderer the
    translator built from [p], the other three arguments being those of the
    sprite's unchanged rotation, scale and colour: nothing is cached between
    draws.  After the setter, [getPosition()] returns [p] and the other
    getters and [isEnabled()] return what they returned before. *)
Theorem Sprite_setPosition_then_draw
    (gl_draw : loc → loc → loc → loc → M unit) h this proto s (p : list V) :
  h !! this = Some (OSprite proto s) →
  ∃ h1 matScl matRot matTrs vecCol h2,
    Sprite_setPosition this p h = Ret () h1 ∧
    Sprite_getPosition this h1 = Ret p h1 ∧
    Sprite_getRotation this h1 = Ret (rot s) h1 ∧
    Sprite_getScale this h1 = Ret (scl s) h1 ∧
    Sprite_getColor this h1 = Ret (col s) h1 ∧
    Sprite_isEnabled this h1 = Ret (enabled s) h1 ∧
    Sprite_draw gl_draw this h1 = gl_draw matScl matRot matTrs vecCol h2 ∧
    h2 !! matTrs = Some (OMatrix (translator_raw p.[0] p.[1] p.[2])) ∧
    h2 !! matScl = Some (OMatrix (scaler_raw (scl s).[0] (scl s).[1] (num 1))) ∧
    h2 !! matRot = Some (OMatrix
      (mul_cells (rotatorX_raw (rot s).[0])
         (mul_cells (rotatorY_raw (rot s).[1]) (rotatorZ_raw (rot s).[2])))) ∧
    h2 !! vecCol = Some (OVector [(col s).[0]; (col s).[1]; (col s).[2]; (col s).[3]]).
Proof.
  intros Hs.
  destruct (Sprite_update_getters (set_pos p) h this proto s Hs)
    as (h1 & Hset & Hen & Hpos & Hrot & Hscl & Hcol & Hh1).
  assert (h1 !! this = Some (OSprite proto (set_pos p s))) as Hs1
    by (rewrite Hh1; apply lookup_insert_eq).
  destruct (Sprite_draw_builds gl_draw h1 this proto (set_pos p s) Hs1)
    as (a1 & a2 & a3 & a4 & h2 & Hrun & H1 & H2 & H3 & H4 & _).
  exists h1, a1, a2, a3, a4, h2. by repeat split.
Qed.

End FrameProperties.

(** ** The resize handler *)


(** ** The typing manager *)

Section TypingProperties.
Context {B : Type} `{TypingBuffer B}.
Implicit Types (this : TypingManager (B:=B)) (keys pre post : list string).

Lemma update_keys_no_Enter pre this :
  "Enter" ∉ pre →
  update_keys pre this
  = {| buffer := foldl (λ b c, if decide (c = "Backspace") then buffer_pop b
                               else buffer_push c b) (buffer this) pre;
       isSubmitted := isSubmitted this |}.
Proof.
  revert this. induction pre as [|c pre IH]; intros this Hpre.
  - by destruct this.
  - apply not_elem_of_cons in Hpre as [Hc Hpre]. cbn [update_keys foldl].
    destruct (decide (c = "Backspace")); [by rewrite IH|].
    rewrite decide_False by done. by rewrite IH.
Qed.

Lemma update_keys_Enter pre post this :
  "Enter" ∉ pre →
  update_keys (pre ++ "Enter" :: post) this
  = {| buffer := buffer (update_keys pre this); isSubmitted := true |}.
Proof.
  revert this. induction pre as [|c pre IH]; intros this Hpre.
  - done.
  - apply not_elem_of_cons in Hpre as [Hc Hpre]. cbn [update_keys app].
    destruct (decide (c = "Backspace")); [exact (IH _ Hpre)|].
    rewrite !decide_False by done. exact (IH _ Hpre).
Qed.

(** X14. On a manager that is not submitted, [update] handles the keys up to
    the first ["Enter"]: ["Backspace"] pops the buffer, any other key is
    pushed, in order; ["Enter"] submits, and the keys after it are dropped.
    Once submitted, [update] ignores every key until [reject()] or
    [clear()]; [reject()] keeps the buffer and [clear()] clears it. *)
Theorem TypingManager_update_until_Enter pre post this :
  isSubmitted this = false → "Enter" ∉ pre →
  ∃ submitted,
    TypingManager_update (pre ++ "Enter" :: post) this = submitted ∧
    TypingManager_checkSubmitted submitted = true ∧
    TypingManager_getBuffer submitted
      = foldl (λ b c, if decide (c = "Backspace") then buffer_pop b
                      else buffer_push c b) (buffer this) pre ∧
    TypingManager_getBuffer submitted = TypingManager_getBuffer (TypingManager_update pre this) ∧
    TypingManager_checkSubmitted (TypingManager_update pre this) = false ∧
    (∀ keys, TypingManager_update keys submitted = submitted) ∧
    TypingManager_reject submitted = TypingManager_update pre this ∧
    TypingManager_clear submitted
      = {| buffer := buffer_clear (TypingManager_getBuffer submitted); isSubmitted := false |}.
Proof.
  intros Hthis Hpre. destruct this as [b sub]. simpl in Hthis. subst sub.
  eexists. split; [reflexivity|].
  unfold TypingManager_update. cbn [isSubmitted].
  rewrite (update_keys_Enter pre post _ Hpre), (update_keys_no_Enter pre _ Hpre).
  by repeat split.
Qed.

(** X15. After [update], the manager is submitted exactly when it was
    before or ["Enter"] is among the keys. *)
Theorem TypingManager_submitted_iff keys this :
  TypingManager_checkSubmitted (TypingManager_update keys this)
  = isSubmitted this || bool_decide ("Enter" ∈ keys).
Proof.
  unfold TypingManager_checkSubmitted, TypingManager_update.
  destruct this as [b [|]]; [done|]. cbn [isSubmitted orb].
  revert b. induction keys as [|c keys IH]; intros b; [done|].
  cbn [update_keys isSubmitted buffer]. destruct (decide (c = "Backspace")) as [->|Hb].
  - rewrite IH. apply bool_decide_ext. rewrite elem_of_cons.
    split; [by right|]. by intros [?|?].
  - destruct (decide (c = "Enter")) as [->|He].
    + cbn [isSubmitted]. symmetry. apply bool_decide_eq_true. by left.
    + rewrite IH. apply bool_decide_ext. rewrite elem_of_cons.
      split; [by right|]. intros [?|?]; [congruence|done].
Qed.

End TypingProperties.

(** ** Named setters and the uploaded layout *)

Section LayoutProperties.
Context {V : Type} `{JSMath V} `{JSCompare V}.
Implicit Types (h : gmap loc (object (V:=V))) (this : loc).

(** X16. On a vector of four values, [setX], [setY], [setZ] and [setW] each
    overwrite their own component and keep the four-element array: after the
    four calls the vector holds exactly the four values given, whatever it
    held before, and [x()], [y()], [z()], [w()] return them. *)
Theorem Vector_named_setters h this (v : list V) (x y z w : V) :
  h !! this = Some (OVector v) → length v = 4 →
  ∃ h',
    (Vector_setX this x;; Vector_setY this y;; Vector_setZ this z;; Vector_setW this w) h
      = Ret () h' ∧
    h' = <[this := OVector [x; y; z; w]]> h ∧
    Vector_x this h' = Ret x h' ∧ Vector_y this h' = Ret y h' ∧
    Vector_z this h' = Ret z h' ∧ Vector_w this h' = Ret w h'.
Proof.
  intros Hv Hlen.
  do 4 (destruct v as [|? v]; [discriminate Hlen|]). destruct v; [|discriminate Hlen].
  eexists. split.
  { eapply bind_Ret_eq.
    { unfold Vector_setX. by rewrite (bind_Ret _ _ _ _ _ (get_v_run _ _ _ Hv)). }
    eapply bind_Ret_eq.
    { unfold Vector_setY.
      by rewrite (bind_Ret _ _ _ _ _ (get_v_run _ _ _ (lookup_insert_eq _ _ _))). }
    eapply bind_Ret_eq.
    { unfold Vector_setZ.
      by rewrite (bind_Ret _ _ _ _ _ (get_v_run _ _ _ (lookup_insert_eq _ _ _))). }
    unfold Vector_setW.
    by rewrite (bind_Ret _ _ _ _ _ (get_v_run _ _ _ (lookup_insert_eq _ _ _))). }
  rewrite ?store_run, !insert_insert_eq.
  split; [reflexivity|].
  by destruct (Vector_component_run _ this [x; y; z; w] (lookup_insert_eq h this _))
    as (? & ? & ? & ?).
Qed.

(** X17. [get()] exposes the storage order: on a matrix of sixteen cells it
    returns sixteen values, and the value at index [4 * j + i] is the
    conversion of what [at(i, j)] returns, so that each run of four values
    is a column of the matrix; the call changes nothing. *)
Theorem Matrix_get_column_major h this (m : list V) i j :
  h !! this = Some (OMatrix m) → length m = 16 → i < 4 → j < 4 →
  ∃ data entry,
    Matrix_get this h = Ret data h ∧
    Matrix_at this i j h = Ret entry h ∧
    length data = 16 ∧
    data !! (4 * j + i) = Some (fround entry).
Proof.
  intros Hm Hlen Hi Hj.
  exists (Float32Array m), (cells_at m i j).
  split; [by apply Matrix_get_run|]. split; [by apply Matrix_at_run|].
  split; [unfold Float32Array; by rewrite length_fmap|].
  unfold Float32Array, cells_at, arr_get. rewrite list_lookup_fmap.
  destruct (lookup_lt_is_Some_2 m (4 * j + i)) as [x Hx]; [lia|].
  by rewrite Hx.
Qed.

End LayoutProperties.

(** ** The further properties at concrete inputs *)

Lemma Vector_mul_dot_componentwise_witness :
  ∃ product h',
    Vector_mul 0 1 sample_vectors = Ret product h' ∧
    sample_vectors !! product = None ∧
    (∀ k, k < 4 →
       Vector_at product k h'
       = Ret ([Some 1%Q; Some 2%Q; Some 3%Q; Some 4%Q].[k]
              * [Some 5%Q; Some 6%Q; Some 7%Q; Some 8%Q].[k])%js h') ∧
    (∀ l o, sample_vectors !! l = Some o → h' !! l = Some o) ∧
    Vector_dot 0 1 sample_vectors = Ret (Some (1 * 5 + 2 * 6 + 3 * 7 + 4 * 8)%Q) sample_vectors.
Proof.
  exact (Vector_mul_dot_componentwise sample_vectors 0 1
    [Some 1%Q; Some 2%Q; Some 3%Q; Some 4%Q] [Some 5%Q; Some 6%Q; Some 7%Q; Some 8%Q]
    eq_refl eq_refl).
Defined.



Lemma Matrix_clone_independent_witness :
  ∃ copy h1 h2 h3,
    Matrix_clone 0 sample_matrices = Ret copy h1 ∧
    sample_matrices !! copy = None ∧
    h1 !! copy = Some (OMatrix sample_raw) ∧ h1 !! 0 = Some (OMatrix sample_raw) ∧
    Matrix_setAt copy 2 3 (Some 9%Q) h1 = Ret () h2 ∧
    h2 !! 0 = Some (OMatrix sample_raw) ∧
    Matrix_setAt 0 2 3 (Some 9%Q) h1 = Ret () h3 ∧
    h3 !! copy = Some (OMatrix sample_raw).
Proof.
  apply (Matrix_clone_independent sample_matrices 0 sample_raw 2 3 (Some 9%Q)); reflexivity.
Defined.

Lemma Vector_dot_mul_symmetric_witness :
  Vector_dot 3 4 sample_reals = Vector_dot 4 3 sample_reals ∧
  Vector_mul 3 4 sample_reals = Vector_mul 4 3 sample_reals ∧
  is_Some (returned (Vector_dot 3 4 sample_reals)) ∧
  is_Some (returned (Vector_mul 3 4 sample_reals)).
Proof.
  apply (Vector_dot_mul_symmetric sample_reals 3 4
    [Some 1%R; Some 2%R; Some 3%R; Some 4%R] [Some 5%R; Some 6%R; Some 7%R; Some 8%R]);
    reflexivity.
Defined.

Lemma Matrix_identity_neutral_witness :
  ∃ e left right h1 h2 h3,
    Matrix_identity sample_reals = Ret e h1 ∧
    Matrix_mul e 0 h1 = Ret left h2 ∧
    Matrix_mul 0 e h2 = Ret right h3 ∧
    h3 !! left = Some (OMatrix (Some <$> sample_real_cells 1)) ∧
    h3 !! right = Some (OMatrix (Some <$> sample_real_cells 1)) ∧
    h3 !! 0 = Some (OMatrix (Some <$> sample_real_cells 1)).
Proof.
  apply (Matrix_identity_neutral sample_reals 0 (sample_real_cells 1)); reflexivity.
Defined.


Lemma GLWrapper_draw_uploads_witness :
  GLWrapper_draw 0 1 2 3 4 sample_renderer
  = Ret () (<[0 := OGLWrapper ([gl_clear] ++ [
      uniformMatrix4fv uniScl false
        (Float32Array (scaler_raw (Some 100%Q) (Some 100%Q) (Some 1%Q)));
      uniformMatrix4fv uniRot false (Float32Array identity_raw);
      uniformMatrix4fv uniTrs false
        (Float32Array (translator_raw (Some 0%Q) (Some 0%Q) (Some 40%Q)));
      uniform4fv uniCol (Float32Array [Some 1%Q; Some 0%Q; Some 0%Q; Some 1%Q]);
      drawElements 6])]> sample_renderer).
Proof.
  apply (GLWrapper_draw_uploads sample_renderer 0 1 2 3 4 [gl_clear]
    (scaler_raw (Some 100%Q) (Some 100%Q) (Some 1%Q)) identity_raw
    (translator_raw (Some 0%Q) (Some 0%Q) (Some 40%Q))
    [Some 1%Q; Some 0%Q; Some 0%Q; Some 1%Q]); reflexivity.
Defined.

Lemma loop_draws_every_sprite_witness :
  ∃ h',
    loop 1 2 sample_frame = Ret () h' ∧
    h' !! 1 = Some (OGLWrapper
      ([] ++ [gl_clear]
          ++ concat (calls_of sample_frame
                       <$> filter (λ n, is_instance sample_frame "Sprite" n) [0; 3])
          ++ [gl_flush])) ∧
    h' !! 2 = Some (OComponentManager [0; 3]) ∧
    ∀ l o, l ≠ 1 → sample_frame !! l = Some o → h' !! l = Some o.
Proof.
  apply (loop_draws_every_sprite sample_frame 1 2 [] [0; 3]);
    [reflexivity | reflexivity
    | repeat first [apply Forall_nil_2 | apply Forall_cons_2; [eexists; reflexivity|]]
    | ].
  intros n Hn Hinst.
  apply elem_of_cons in Hn as [->|Hn]; [by eexists _, _|].
  apply elem_of_cons in Hn as [->|Hn]; [by destruct Hinst|].
  by apply elem_of_nil in Hn.
Defined.

Lemma Sprite_setPosition_then_draw_witness :
  ∃ h1 matScl matRot matTrs vecCol h2,
    Sprite_setPosition 0 [Some 3%R; Some 4%R; Some 5%R] sample_frame = Ret () h1 ∧
    Sprite_getPosition 0 h1 = Ret [Some 3%R; Some 4%R; Some 5%R] h1 ∧
    Sprite_getRotation 0 h1 = Ret (rot sample_sprite) h1 ∧
    Sprite_getScale 0 h1 = Ret (scl sample_sprite) h1 ∧
    Sprite_getColor 0 h1 = Ret (col sample_sprite) h1 ∧
    Sprite_isEnabled 0 h1 = Ret (enabled sample_sprite) h1 ∧
    Sprite_draw (GLWrapper_draw 1) 0 h1 = GLWrapper_draw 1 matScl matRot matTrs vecCol h2 ∧
    h2 !! matTrs = Some (OMatrix (translator_raw (Some 3%R) (Some 4%R) (Some 5%R))) ∧
    h2 !! matScl = Some (OMatrix
      (scaler_raw (scl sample_sprite).[0] (scl sample_sprite).[1] (num 1))) ∧
    h2 !! matRot = Some (OMatrix
      (mul_cells (rotatorX_raw (rot sample_sprite).[0])
         (mul_cells (rotatorY_raw (rot sample_sprite).[1])
            (rotatorZ_raw (rot sample_sprite).[2])))) ∧
    h2 !! vecCol = Some (OVector
      [(col sample_sprite).[0]; (col sample_sprite).[1];
       (col sample_sprite).[2]; (col sample_sprite).[3]]).
Proof.
  apply (Sprite_setPosition_then_draw (GLWrapper_draw 1) sample_frame 0 ["Sprite"]
    sample_sprite [Some 3%R; Some 4%R; Some 5%R]).
  reflexivity.
Defined.

Lemma TypingManager_update_until_Enter_witness :
  ∃ submitted,
    TypingManager_update (["a"; "b"; "Backspace"; "c"] ++ "Enter" :: ["d"]) TypingManager_new
      = submitted ∧
    TypingManager_checkSubmitted submitted = true ∧
    TypingManager_getBuffer submitted
      = foldl (λ (b : list string) c,
                 if decide (c = "Backspace") then buffer_pop b else buffer_push c b)
          (buffer TypingManager_new) ["a"; "b"; "Backspace"; "c"] ∧
    TypingManager_getBuffer submitted
      = TypingManager_getBuffer
          (TypingManager_update ["a"; "b"; "Backspace"; "c"] TypingManager_new) ∧
    TypingManager_checkSubmitted
      (TypingManager_update ["a"; "b"; "Backspace"; "c"] TypingManager_new) = false ∧
    (∀ keys, TypingManager_update keys submitted = submitted) ∧
    TypingManager_reject submitted
      = TypingManager_update ["a"; "b"; "Backspace"; "c"] TypingManager_new ∧
    TypingManager_clear submitted
      = {| buffer := buffer_clear (TypingManager_getBuffer submitted); isSubmitted := false |}.
Proof.
  apply (TypingManager_update_until_Enter (B:=list string)
    ["a"; "b"; "Backspace"; "c"] ["d"] TypingManager_new); [reflexivity|].
  apply (bool_decide_unpack _). vm_compute. exact I.
Defined.

Lemma Vector_named_setters_witness :
  ∃ h',
    (Vector_setX 0 (Some 9%Q);; Vector_setY 0 (Some 8%Q);;
     Vector_setZ 0 (Some 7%Q);; Vector_setW 0 (Some 6%Q)) sample_vectors = Ret () h' ∧
    h' = <[0 := OVector [Some 9%Q; Some 8%Q; Some 7%Q; Some 6%Q]]> sample_vectors ∧
    Vector_x 0 h' = Ret (Some 9%Q) h' ∧ Vector_y 0 h' = Ret (Some 8%Q) h' ∧
    Vector_z 0 h' = Ret (Some 7%Q) h' ∧ Vector_w 0 h' = Ret (Some 6%Q) h'.
Proof.
  apply (Vector_named_setters sample_vectors 0 [Some 1%Q; Some 2%Q; Some 3%Q; Some 4%Q]);
    reflexivity.
Defined.

Lemma Matrix_get_column_major_witness :
  ∃ data entry,
    Matrix_get 0 sample_matrices = Ret data sample_matrices ∧
    Matrix_at 0 2 3 sample_matrices = Ret entry sample_matrices ∧
    length data = 16 ∧
    data !! (4 * 3 + 2) = Some (fround entry).
Proof.
  apply (Matrix_get_column_major sample_matrices 0 sample_raw 2 3);
    [reflexivity | reflexivity | lia | lia].
Defined.

Example typing_a_word :
  TypingManager_update ["c"; "a"; "r"; "Backspace"; "t"; "Enter"; "s"] TypingManager_new
  = {| buffer := ["c"; "a"; "t"]; isSubmitted := true |}.
Proof. reflexivity. Qed.

Example resizing_a_wide_window :
  resizing (Some 1920%Q) (Some 1080%Q)
  = (Some (1080 * 1280 / 960)%Q, Some 1080%Q).
Proof. reflexivity. Qed.
